(** * Voice Recorder: the session life cycle of [App.js]

    A shallow embedding of the single React component of the
    recording app: its ten [useState] cells, its two [useEffect]
    hooks, and the event handlers wired into the rendered tree.  The
    audio service (expo-av) and the JavaScript timer queue are
    external; they are kept as an explicit device value threaded
    through the handlers.

    Conventions.
    - One handler invocation, together with the re-render and the
      effects it triggers, is one step.  The [await] points inside a
      handler are not interleaved with other events.  Inside a step
      the handler ([handle]) comes first and the effects of the
      re-render ([render]) after it; the order of the device calls
      inside the handler itself is not recorded.
    - A handler reads the cells of the render it was created in and
      its setters take effect at the re-render; with one step per
      handler these are the cells of the state before the step.
    - Object identity is a number: every [Recording] and [Sound] the
      device creates gets the next one.
    - [timer] is a natural number; the JavaScript number it stands for
      is exact far beyond any recording length.
    - A press on the trash icon is handled by the icon alone, not by
      the row around it. *)

From stdpp Require Import base option list gmap strings.

(** ** JavaScript values *)

(** A cell that holds [null], [undefined] or an object reference. *)
Inductive nullable (A : Type) : Type :=
  | JNull
  | JUndefined
  | JObj (a : A).
Arguments JNull {A}.
Arguments JUndefined {A}.
Arguments JObj {A} a.

Global Instance nullable_eq_dec `{EqDecision A} : EqDecision (nullable A).
Proof. solve_decision. Defined.

(** Truthiness of an object reference: [x ? a : b]. *)
Definition truthy {A} (x : nullable A) : bool :=
  match x with JObj _ => true | _ => false end.

(** Truthiness of a number-or-nothing cell (zero is falsy). *)
Definition truthy_num (x : nullable nat) : bool :=
  match x with JObj n => negb (Nat.eqb n 0) | _ => false end.

(** A string is its sequence of UTF-16 code units. *)
Definition jsstring : Type := list N.

(** ECMAScript WhiteSpace and LineTerminator code points, the ones
    [String.prototype.trim] strips. *)
Definition isWhiteSpace (c : N) : bool :=
  ((9 <=? c) && (c <=? 13))%N
  || (c =? 32)%N || (c =? 160)%N || (c =? 5760)%N
  || ((8192 <=? c) && (c <=? 8202))%N
  || (c =? 8232)%N || (c =? 8233)%N || (c =? 8239)%N
  || (c =? 8287)%N || (c =? 12288)%N || (c =? 65279)%N.

Fixpoint trimStart (s : jsstring) : jsstring :=
  match s with
  | c :: s' => if isWhiteSpace c then trimStart s' else s
  | [] => []
  end.

Definition trimEnd (s : jsstring) : jsstring := rev (trimStart (rev s)).

Definition trim (s : jsstring) : jsstring := trimEnd (trimStart s).

(** [s !== ''] *)
Definition nonEmpty (s : jsstring) : bool :=
  match s with [] => false | _ :: _ => true end.

(** [arr.filter((x, i) => keep i)] *)
Fixpoint filterIndexFrom {A} (keep : nat → bool) (i : nat) (l : list A) : list A :=
  match l with
  | [] => []
  | x :: l' =>
      if keep i then x :: filterIndexFrom keep (S i) l'
      else filterIndexFrom keep (S i) l'
  end.

Definition filterIndex {A} (keep : nat → bool) (l : list A) : list A :=
  filterIndexFrom keep 0 l.

(** ** The audio service and the timer queue *)

(** Device-side state of a [Recording] object. *)
Inductive RecStatus : Type :=
  | Capturing
  | Suspended
  | Finalized.

Global Instance RecStatus_eq_dec : EqDecision RecStatus.
Proof. solve_decision. Defined.

Definition isLive (st : option RecStatus) : bool :=
  match st with
  | Some Capturing | Some Suspended => true
  | _ => false
  end.

(** Modelled from the spec: the Audio Device Service of section 6
    (expo-av at run time) and the timer queue, neither of which is part
    of the component's source.  Objects are numbered in creation
    order.  [captures] gives every [Recording] object its status,
    [sounds] maps every loaded [Sound] to the recording it plays, and
    [timers] is the set of live interval ids. *)
Record Device : Type := mkDevice {
  nextObject : nat;
  captures : gmap nat RecStatus;
  sounds : gmap nat nat;
  timers : gset nat;
  nextTimer : nat;
  allowsRecordingIOS : bool
}.

Definition withCaptures (c : gmap nat RecStatus) (d : Device) : Device :=
  mkDevice (nextObject d) c (sounds d) (timers d) (nextTimer d) (allowsRecordingIOS d).

Definition withSounds (m : gmap nat nat) (d : Device) : Device :=
  mkDevice (nextObject d) (captures d) m (timers d) (nextTimer d) (allowsRecordingIOS d).

Definition withTimers (t : gset nat) (d : Device) : Device :=
  mkDevice (nextObject d) (captures d) (sounds d) t (nextTimer d) (allowsRecordingIOS d).

(** [Audio.setAudioModeAsync({ allowsRecordingIOS })] *)
Definition setAudioModeAsync (b : bool) (d : Device) : Device :=
  mkDevice (nextObject d) (captures d) (sounds d) (timers d) (nextTimer d) b.

(** [Audio.Recording.createAsync]: when the service grants the
    request a new recording object starts capturing; otherwise the call
    throws. *)
Definition createAsync (granted : bool) (d : Device) : option (nat * Device) :=
  if granted then
    let h := nextObject d in
    Some (h, mkDevice (S h) (<[h := Capturing]> (captures d)) (sounds d)
                      (timers d) (nextTimer d) (allowsRecordingIOS d))
  else None.

(** [recording.stopAndUnloadAsync()]: throws unless the recorder is live. *)
Definition stopAndUnloadAsync (h : nat) (d : Device) : option Device :=
  if isLive (captures d !! h)
  then Some (withCaptures (<[h := Finalized]> (captures d)) d)
  else None.

(** [recording.pauseAsync()] *)
Definition pauseAsync (h : nat) (d : Device) : option Device :=
  if isLive (captures d !! h)
  then Some (withCaptures (<[h := Suspended]> (captures d)) d)
  else None.

(** [recording.startAsync()] *)
Definition startAsync (h : nat) (d : Device) : option Device :=
  if isLive (captures d !! h)
  then Some (withCaptures (<[h := Capturing]> (captures d)) d)
  else None.

(** [recording.createNewLoadedSoundAsync(...)]: needs a finished
    recording; [loads] is the service's answer. *)
Definition createNewLoadedSoundAsync (loads : bool) (r : nat) (d : Device)
  : option (nat * Device) :=
  match captures d !! r with
  | Some Finalized =>
      if loads then
        let h := nextObject d in
        Some (h, mkDevice (S h) (captures d) (<[h := r]> (sounds d))
                          (timers d) (nextTimer d) (allowsRecordingIOS d))
      else None
  | _ => None
  end.

(** [sound.unloadAsync()]: stops and releases; harmless when repeated. *)
Definition unloadAsync (h : nat) (d : Device) : Device :=
  withSounds (delete h (sounds d)) d.

(** [setInterval(cb, 1000)] *)
Definition setInterval (d : Device) : nat * Device :=
  let id := nextTimer d in
  (id, mkDevice (nextObject d) (captures d) (sounds d)
                ({[id]} ∪ timers d) (S id) (allowsRecordingIOS d)).

(** [clearInterval(x)]; [clearInterval(undefined)] does nothing. *)
Definition clearInterval (x : nullable nat) (d : Device) : Device :=
  match x with
  | JObj id => withTimers (timers d ∖ {[id]}) d
  | _ => d
  end.

(** ** The component state *)

(** An entry of the [recordings] array. *)
Record Clip : Type := mkClip {
  clip_name : jsstring;
  clip_recording : nullable nat;
  clip_timestamp : jsstring
}.

Global Instance Clip_eq_dec : EqDecision Clip.
Proof. solve_decision. Defined.

(** The ten state cells of [App], the [interval] variable captured by
    the clean-up closure of the timer effect, and the device. *)
Record App : Type := mkApp {
  recordings : list Clip;
  recording : nullable nat;
  recordingName : jsstring;
  playing : Z;
  sound : nullable nat;
  isDialogVisible : bool;
  isRecording : bool;
  timer : nat;
  isPaused : bool;
  intervalId : nullable nat;
  interval : nullable nat;
  device : Device
}.

Definition setRecordings (v : list Clip) (s : App) : App :=
  mkApp v (recording s) (recordingName s) (playing s) (sound s) (isDialogVisible s)
        (isRecording s) (timer s) (isPaused s) (intervalId s) (interval s) (device s).
Definition setRecording (v : nullable nat) (s : App) : App :=
  mkApp (recordings s) v (recordingName s) (playing s) (sound s) (isDialogVisible s)
        (isRecording s) (timer s) (isPaused s) (intervalId s) (interval s) (device s).
Definition setRecordingName (v : jsstring) (s : App) : App :=
  mkApp (recordings s) (recording s) v (playing s) (sound s) (isDialogVisible s)
        (isRecording s) (timer s) (isPaused s) (intervalId s) (interval s) (device s).
Definition setPlaying (v : Z) (s : App) : App :=
  mkApp (recordings s) (recording s) (recordingName s) v (sound s) (isDialogVisible s)
        (isRecording s) (timer s) (isPaused s) (intervalId s) (interval s) (device s).
Definition setSound (v : nullable nat) (s : App) : App :=
  mkApp (recordings s) (recording s) (recordingName s) (playing s) v (isDialogVisible s)
        (isRecording s) (timer s) (isPaused s) (intervalId s) (interval s) (device s).
Definition setDialogVisible (v : bool) (s : App) : App :=
  mkApp (recordings s) (recording s) (recordingName s) (playing s) (sound s) v
        (isRecording s) (timer s) (isPaused s) (intervalId s) (interval s) (device s).
Definition setIsRecording (v : bool) (s : App) : App :=
  mkApp (recordings s) (recording s) (recordingName s) (playing s) (sound s) (isDialogVisible s)
        v (timer s) (isPaused s) (intervalId s) (interval s) (device s).
Definition setTimer (v : nat) (s : App) : App :=
  mkApp (recordings s) (recording s) (recordingName s) (playing s) (sound s) (isDialogVisible s)
        (isRecording s) v (isPaused s) (intervalId s) (interval s) (device s).
Definition setIsPaused (v : bool) (s : App) : App :=
  mkApp (recordings s) (recording s) (recordingName s) (playing s) (sound s) (isDialogVisible s)
        (isRecording s) (timer s) v (intervalId s) (interval s) (device s).
Definition setIntervalId (v : nullable nat) (s : App) : App :=
  mkApp (recordings s) (recording s) (recordingName s) (playing s) (sound s) (isDialogVisible s)
        (isRecording s) (timer s) (isPaused s) v (interval s) (device s).
Definition setIntervalVar (v : nullable nat) (s : App) : App :=
  mkApp (recordings s) (recording s) (recordingName s) (playing s) (sound s) (isDialogVisible s)
        (isRecording s) (timer s) (isPaused s) (intervalId s) v (device s).
Definition setDevice (v : Device) (s : App) : App :=
  mkApp (recordings s) (recording s) (recordingName s) (playing s) (sound s) (isDialogVisible s)
        (isRecording s) (timer s) (isPaused s) (intervalId s) (interval s) v.

Notation "s |> f" := (f s) (at level 45, left associativity, only parsing).

(** The three recording states, read off the cells the way the footer
    icon does: [isRecording ? (isPaused ? "play" : "pause") : "mic"]. *)
Inductive RecordingState : Type :=
  | Idle
  | Recording
  | Paused.

Global Instance RecordingState_eq_dec : EqDecision RecordingState.
Proof. solve_decision. Defined.

Definition recordingState (s : App) : RecordingState :=
  if isRecording s then (if isPaused s then Paused else Recording) else Idle.

(** ** Handlers

    A handler that ends in a rejected promise (a device call throws, or
    a method is called on [null]) returns [None]: none of its setters
    has run. *)

Definition startRecording (granted : bool) (s : App) : App :=
  let d1 := setAudioModeAsync true (device s) in
  match createAsync granted d1 with
  | Some (h, d2) => s |> setDevice d2 |> setRecording (JObj h) |> setIsRecording true
  | None => s |> setDevice d1
  end.

Definition stopRecording (s : App) : option App :=
  match recording s with
  | JObj h =>
      d1 ← stopAndUnloadAsync h (device s);
      let d2 := setAudioModeAsync false d1 in
      Some (s |> setDevice d2 |> setIsRecording false |> setDialogVisible true
              |> setTimer 0)
  | _ => None
  end.

Definition handleSaveRecording (now : jsstring) (s : App) : App :=
  if nonEmpty (trim (recordingName s)) then
    s |> setRecordings (recordings s ++ [mkClip (recordingName s) (recording s) now])
      |> setRecording JUndefined
      |> setDialogVisible false
      |> setRecordingName []
  else s.

Definition togglePause (s : App) : option App :=
  match recording s with
  | JObj h =>
      d1 ← (if isPaused s then startAsync h (device s) else pauseAsync h (device s));
      Some (s |> setDevice d1 |> setIsPaused (negb (isPaused s)))
  | _ => None
  end.

(** The [Cancel] button of the dialog. *)
Definition onPressCancel (s : App) : App := s |> setDialogVisible false.

(** [onChangeText] of the name field. *)
Definition onChangeText (text : jsstring) (s : App) : App := s |> setRecordingName text.

(** The status callback registered on the sound [h] by the play handler. *)
Definition onPlaybackStatusUpdate (h : nat) (didJustFinish : bool) (s : App) : App :=
  if didJustFinish
  then s |> setPlaying (-1) |> setDevice (unloadAsync h (device s))
  else s.

(** [onPress] of the list row [index]. *)
Definition onPressPlay (loads : bool) (index : nat) (s : App) : option App :=
  item ← recordings s !! index;
  match clip_recording item with
  | JObj r =>
      '(h, d1) ← createNewLoadedSoundAsync loads r (device s);
      Some (s |> setDevice d1 |> setSound (JObj h) |> setPlaying (Z.of_nat index))
  | _ => None
  end.

(** [onPress] of the trash icon of row [index]. *)
Definition onPressTrash (index : nat) (s : App) : App :=
  s |> setRecordings (filterIndex (λ i, negb (i =? index)) (recordings s)).

(** [onPress] of the footer button:
    [recording ? (isPaused ? togglePause : stopRecording) : startRecording]. *)
Definition onPressRecord (granted : bool) (s : App) : option App :=
  if truthy (recording s)
  then (if isPaused s then togglePause s else stopRecording s)
  else Some (startRecording granted s).

(** The interval callback: [setTimer(prevTimer => prevTimer + 1)]. *)
Definition onInterval (s : App) : App := s |> setTimer (timer s + 1).

(** ** Effects *)

(** The timer effect, run when [isRecording] or [isPaused] changed:
    first the clean-up returned by its previous run, then its body. *)
Definition timerEffect (s : App) : App :=
  let d0 := clearInterval (interval s) (device s) in
  if isRecording s && negb (isPaused s) then
    let '(id, d1) := setInterval d0 in
    s |> setDevice d1 |> setIntervalId (JObj id) |> setIntervalVar (JObj id)
  else
    let d1 := if truthy_num (intervalId s) then clearInterval (intervalId s) d0 else d0 in
    s |> setDevice d1 |> setIntervalId JUndefined |> setIntervalVar JUndefined.

(** The sound effect has no body; its clean-up unloads the sound of the
    render it was created in. *)
Definition soundCleanup (prev : nullable nat) (s : App) : App :=
  match prev with
  | JObj h => s |> setDevice (unloadAsync h (device s))
  | _ => s
  end.

(** Re-render after a handler: each effect whose dependencies differ
    from the previous render runs, in declaration order. *)
Definition render (prev s : App) : App :=
  let s1 :=
    if decide ((isRecording prev, isPaused prev) = (isRecording s, isPaused s))
    then s else timerEffect s in
  if decide (sound prev = sound s) then s1 else soundCleanup (sound prev) s1.

(** ** Events *)

Inductive Event : Type :=
  | PressRecord (granted : bool)
  | TogglePause
  | ChangeText (text : jsstring)
  | PressSave (now : jsstring)
  | PressCancel
  | PressPlay (index : nat) (loads : bool)
  | PressTrash (index : nat)
  | Tick (id : nat)
  | DidJustFinish (h : nat).

(** What is on screen, or pending in the device, and so can occur.  The
    dialog widgets exist while the modal is visible, a row exists for
    every clip, an interval fires while it is live and a sound can
    finish while it is loaded.  [togglePause] is offered in every state
    although the footer button only reaches it when already paused. *)
Definition enabled (e : Event) (s : App) : bool :=
  match e with
  | PressRecord _ | TogglePause => true
  | ChangeText _ | PressSave _ | PressCancel => isDialogVisible s
  | PressPlay index _ | PressTrash index => bool_decide (index < length (recordings s))%nat
  | Tick id => bool_decide (id ∈ timers (device s))
  | DidJustFinish h => bool_decide (is_Some (sounds (device s) !! h))
  end.

Definition handle (e : Event) (s : App) : App :=
  match e with
  | PressRecord granted => default s (onPressRecord granted s)
  | TogglePause => default s (togglePause s)
  | ChangeText text => onChangeText text s
  | PressSave now => handleSaveRecording now s
  | PressCancel => onPressCancel s
  | PressPlay index loads => default s (onPressPlay loads index s)
  | PressTrash index => onPressTrash index s
  | Tick _ => onInterval s
  | DidJustFinish h => onPlaybackStatusUpdate h true s
  end.

Definition step (e : Event) (s : App) : App := render s (handle e s).

(** A handler called on its own, and the re-render that follows. *)
Definition call (f : App → option App) (s : App) : App :=
  render s (default s (f s)).

(** An event that cannot occur leaves the state alone. *)
Definition exec (e : Event) (s : App) : App :=
  if enabled e s then step e s else s.

Definition run (es : list Event) (s : App) : App := foldl (λ s e, exec e s) s es.

(** The first render: every cell at its [useState] argument, then the
    mount run of the timer effect. *)
Definition initialDevice : Device := mkDevice 0 ∅ ∅ ∅ 1 false.

Definition initialCells : App :=
  mkApp [] JNull [] (-1) JNull false false 0 false JNull JUndefined initialDevice.

Definition mounted : App := timerEffect initialCells.

Inductive reachable : App → Prop :=
  | reachable_mounted : reachable mounted
  | reachable_step e s : reachable s → enabled e s = true → reachable (step e s).

(** ** Derived notions *)

(** The capture handle in the [recording] cell, as long as the device
    still records through it. *)
Definition activeRecording (s : App) : option nat :=
  match recording s with
  | JObj h => if isLive (captures (device s) !! h) then Some h else None
  | _ => None
  end.

(** One second passes: every live interval fires once. *)
Definition second (s : App) : App :=
  set_fold (λ id s', step (Tick id) s') s (timers (device s)).

Definition seconds (n : nat) (s : App) : App := Nat.iter n second s.

(** The interval the clean-up closure of the timer effect would clear. *)
Definition liveInterval (s : App) : gset nat :=
  match interval s with JObj id => {[id]} | _ => ∅ end.

(** ** Invariants of the reachable states *)

(** The recording life cycle: [isRecording] says whether the cell
    holds a live recorder; the dialog is open on a finalized one; every
    saved clip carries a finalized recorder of its own, different from
    the one in the cell. *)
Record RecInv (s : App) : Prop := mkRecInv {
  inv_active : isRecording s = true ↔ is_Some (activeRecording s);
  inv_dialog : isDialogVisible s = true →
    ∃ h, recording s = JObj h ∧ captures (device s) !! h = Some Finalized;
  inv_paused : isPaused s = true → isRecording s = true;
  inv_fresh : ∀ h, is_Some (captures (device s) !! h) → (h < nextObject (device s))%nat;
  inv_clips : ∀ c, c ∈ recordings s →
    ∃ r, clip_recording c = JObj r ∧ captures (device s) !! r = Some Finalized;
  inv_pending : ∀ c, c ∈ recordings s → clip_recording c ≠ recording s;
  inv_nodup : NoDup (clip_recording <$> recordings s)
}.

(** The ticker: the live intervals are the one of the last effect run,
    and there is one exactly while recording and not paused. *)
Record TimerInv (s : App) : Prop := mkTimerInv {
  inv_timers : timers (device s) = liveInterval s;
  inv_interval : truthy (interval s) = isRecording s && negb (isPaused s);
  inv_intervalId : intervalId s = interval s
}.

(** Playback: a loaded sound is the tracked one. *)
Record SoundInv (s : App) : Prop := mkSoundInv {
  inv_tracked : ∀ h, is_Some (sounds (device s) !! h) → sound s = JObj h;
  inv_sound_fresh : ∀ h, sound s = JObj h → (h < nextObject (device s))%nat
}.

(** The dialog is closed and the [recording] cell holds a finalized
    handle. *)
Definition Stuck (s : App) : Prop :=
  isDialogVisible s = false ∧
  ∃ h, recording s = JObj h ∧ captures (device s) !! h = Some Finalized.

(** A recorder [h] is in the cell and live, and the ticker is in step
    with the flags. *)
Definition Capture (h : nat) (s : App) : Prop :=
  TimerInv s ∧ recording s = JObj h ∧
  isLive (captures (device s) !! h) = true ∧ isRecording s = true.

(** ** Sample runs *)

Module Scenario.

(** An ASCII literal as a string of code units. *)
Definition js (s : string) : jsstring :=
  (λ a, Ascii.N_of_ascii a) <$> String.list_ascii_of_string s.

Definition stamp : jsstring := js "11/2/2026, 9:00:00 AM".

(** Record, stop, type a name, save. *)
Definition recordOne (name : string) : list Event :=
  [PressRecord true; PressRecord true; ChangeText (js name); PressSave stamp].

Definition memo : Clip := mkClip (js "Memo") (JObj 0%nat) stamp.
Definition take2 : Clip := mkClip (js "Take 2") (JObj 1%nat) stamp.

Definition recordingNow : App := run [PressRecord true] mounted.
Definition pendingSave : App := run [PressRecord true] recordingNow.
Definition savedOne : App := run (recordOne "Memo") mounted.
Definition savedTwo : App := run (recordOne "Take 2") savedOne.
Definition playingFirst : App := run [PressPlay 0 true] savedOne.
Definition playingFirstOfTwo : App := run [PressPlay 0 true] savedTwo.
Definition playingSecondAfterFirst : App := run [PressPlay 1 true] playingFirstOfTwo.

(** Three clips; the second is played and the first is then deleted,
    so that row 1 is marked while the clip heard has moved to row 0. *)
Definition savedThree : App := run (recordOne "Take 3") savedTwo.
Definition markShifted : App := run [PressPlay 1 true; PressTrash 0] savedThree.

End Scenario.

(** ** What is drawn *)

(** The footer icon: [isRecording ? (isPaused ? "play" : "pause") : "mic"]. *)
Definition footerIcon (s : App) : string :=
  if isRecording s then (if isPaused s then "play" else "pause") else "mic".

(** The icon of row [index]: [playing !== index ? "play" : "pause"]. *)
Definition rowIcon (s : App) (index : nat) : string :=
  if decide (playing s ≠ Z.of_nat index) then "play" else "pause".

(** [str.substr(start, length)] for a start inside the string. *)
Definition substr (start len : nat) (s : jsstring) : jsstring :=
  take len (drop start s).

(** The ECMAScript time functions behind [new Date(ms).toISOString()],
    for time values that are not negative. *)
Module Date.

Definition msPerDay : Z := 86400000.
Definition msPerHour : Z := 3600000.
Definition msPerMinute : Z := 60000.
Definition msPerSecond : Z := 1000.

Definition Day (t : Z) : Z := (t / msPerDay)%Z.

Definition DaysInYear (y : Z) : Z :=
  if negb (y mod 4 =? 0)%Z then 365%Z
  else if negb (y mod 100 =? 0)%Z then 366%Z
  else if negb (y mod 400 =? 0)%Z then 365%Z
  else 366%Z.

Definition DayFromYear (y : Z) : Z :=
  (365 * (y - 1970) + (y - 1969) / 4 - (y - 1901) / 100 + (y - 1601) / 400)%Z.

Definition TimeFromYear (y : Z) : Z := (msPerDay * DayFromYear y)%Z.

(** The largest year that starts at or before [t], searched downwards
    from a year that is not too small. *)
Fixpoint yearDown (fuel : nat) (y t : Z) : Z :=
  match fuel with
  | O => y
  | S fuel' => if (TimeFromYear y <=? t)%Z then y else yearDown fuel' (y - 1)%Z t
  end.

Definition YearFromTime (t : Z) : Z :=
  yearDown (S (Z.to_nat (Day t / 365))) (1970 + Day t / 365)%Z t.

Definition InLeapYear (t : Z) : Z :=
  if (DaysInYear (YearFromTime t) =? 366)%Z then 1%Z else 0%Z.

Definition DayWithinYear (t : Z) : Z := (Day t - DayFromYear (YearFromTime t))%Z.

Definition MonthFromTime (t : Z) : Z :=
  let d := DayWithinYear t in
  let l := InLeapYear t in
  if (d <? 31)%Z then 0
  else if (d <? 59 + l)%Z then 1
  else if (d <? 90 + l)%Z then 2
  else if (d <? 120 + l)%Z then 3
  else if (d <? 151 + l)%Z then 4
  else if (d <? 181 + l)%Z then 5
  else if (d <? 212 + l)%Z then 6
  else if (d <? 243 + l)%Z then 7
  else if (d <? 273 + l)%Z then 8
  else if (d <? 304 + l)%Z then 9
  else if (d <? 334 + l)%Z then 10
  else 11.

Definition DateFromTime (t : Z) : Z :=
  let d := DayWithinYear t in
  let l := InLeapYear t in
  match MonthFromTime t with
  | 0 => d + 1
  | 1 => d - 30
  | 2 => d - 58 - l
  | 3 => d - 89 - l
  | 4 => d - 119 - l
  | 5 => d - 150 - l
  | 6 => d - 180 - l
  | 7 => d - 211 - l
  | 8 => d - 242 - l
  | 9 => d - 272 - l
  | 10 => d - 303 - l
  | _ => d - 333 - l
  end%Z.

Definition HourFromTime (t : Z) : Z := ((t / msPerHour) mod 24)%Z.
Definition MinFromTime (t : Z) : Z := ((t / msPerMinute) mod 60)%Z.
Definition SecFromTime (t : Z) : Z := ((t / msPerSecond) mod 60)%Z.
Definition msFromTime (t : Z) : Z := (t mod msPerSecond)%Z.

(** Decimal digits as code units. *)
Definition digit (n : Z) : N := (48 + Z.to_N (n mod 10))%N.

Definition digits2 (n : Z) : jsstring := [digit (n / 10); digit n].
Definition digits3 (n : Z) : jsstring := [digit (n / 100); digit (n / 10); digit n].
Definition digits4 (n : Z) : jsstring :=
  [digit (n / 1000); digit (n / 100); digit (n / 10); digit n].
Definition digits6 (n : Z) : jsstring :=
  [digit (n / 100000); digit (n / 10000); digit (n / 1000);
   digit (n / 100); digit (n / 10); digit n].

(** Four digits for the years 0 to 9999, a sign and six digits otherwise. *)
Definition yearString (y : Z) : jsstring :=
  if (0 <=? y)%Z && (y <=? 9999)%Z then digits4 y
  else (if (0 <=? y)%Z then 43%N else 45%N) :: digits6 (Z.abs y).

(** [new Date(tv).toISOString()]: [YYYY-MM-DDTHH:mm:ss.sssZ], or a
    [RangeError] when [tv] is outside the range of time values. *)
Definition toISOString (tv : Z) : option jsstring :=
  if (Z.abs tv <=? 8640000000000000)%Z then
    Some (yearString (YearFromTime tv) ++ [45%N] ++ digits2 (MonthFromTime tv + 1)
            ++ [45%N] ++ digits2 (DateFromTime tv) ++ [84%N]
            ++ digits2 (HourFromTime tv) ++ [58%N] ++ digits2 (MinFromTime tv)
            ++ [58%N] ++ digits2 (SecFromTime tv) ++ [46%N] ++ digits3 (msFromTime tv)
            ++ [90%N])
  else None.

End Date.

(** The text of the timer:
    [new Date(timer * 1000).toISOString().substr(14, 5)]. *)
Definition timerText (timer : nat) : option jsstring :=
  substr 14 5 <$> Date.toISOString (Z.of_nat timer * 1000).

(** The states reached through the interface alone: presses, typed
    text, intervals and completed sounds, without the direct call of
    [togglePause]. *)
Inductive reachableUI : App → Prop :=
  | reachableUI_mounted : reachableUI mounted
  | reachableUI_step e s :
      reachableUI s → e ≠ TogglePause → enabled e s = true → reachableUI (step e s).

(** ** Further invariants *)

(** The recorder in the cell, when live, is in the device state the
    [isPaused] flag says. *)
Definition Mirror (s : App) : Prop :=
  ∀ h, recording s = JObj h → isLive (captures (device s) !! h) = true →
       captures (device s) !! h = Some (if isPaused s then Suspended else Capturing).

(** No recorder but the one in the cell is live. *)
Definition OneLive (s : App) : Prop :=
  ∀ h, isLive (captures (device s) !! h) = true → recording s = JObj h.

(** Every loaded sound plays a finished recording. *)
Definition PlaysFinished (s : App) : Prop :=
  ∀ h r, sounds (device s) !! h = Some r → captures (device s) !! r = Some Finalized.


(** * Properties *)

Import Scenario.

(** ** What a re-render leaves alone *)

Ltac unfold_render :=
  unfold render, timerEffect, soundCleanup, setInterval, clearInterval, unloadAsync;
  repeat (case_decide || case_match); simplify_eq/=; try done.

Lemma render_cells p s :
  recordings (render p s) = recordings s ∧
  recording (render p s) = recording s ∧
  recordingName (render p s) = recordingName s ∧
  playing (render p s) = playing s ∧
  sound (render p s) = sound s ∧
  isDialogVisible (render p s) = isDialogVisible s ∧
  isRecording (render p s) = isRecording s ∧
  timer (render p s) = timer s ∧
  isPaused (render p s) = isPaused s.
Proof. unfold_render. Qed.

Lemma render_captures p s :
  captures (device (render p s)) = captures (device s) ∧
  nextObject (device (render p s)) = nextObject (device s).
Proof. unfold_render. Qed.

(** ** The recording life cycle *)

Lemma RecInv_render p s : RecInv s → RecInv (render p s).
Proof.
  intros [H1 H2 H3 H4 H5 H6 H7].
  destruct (render_cells p s) as (E1 & E2 & _ & _ & _ & E3 & E4 & _ & E5).
  destruct (render_captures p s) as [E6 E7].
  split; unfold activeRecording in *; rewrite ?E1, ?E2, ?E3, ?E4, ?E5, ?E6, ?E7; done.
Qed.

Lemma RecInv_mounted : RecInv mounted.
Proof.
  split; unfold activeRecording; cbn.
  - split; [done | by intros [? ?]].
  - done.
  - done.
  - intros h [x Hx]. by rewrite lookup_empty in Hx.
  - intros c Hc. by apply elem_of_nil in Hc.
  - intros c Hc. by apply elem_of_nil in Hc.
  - constructor.
Qed.

Lemma filterIndexFrom_past {A} (l : list A) (j m : nat) :
  (j < m)%nat → filterIndexFrom (λ i, negb (i =? j)) m l = l.
Proof.
  revert m. induction l as [|x l IH]; intros m Hm; [done|].
  simpl. destruct (Nat.eqb_spec m j); [lia|]. simpl. f_equal. apply IH. lia.
Qed.

Lemma filterIndexFrom_delete {A} (l : list A) (j k : nat) :
  filterIndexFrom (λ i, negb (i =? j + k)) j l = delete k l.
Proof.
  revert j k. induction l as [|x l IH]; intros j k; [done|].
  simpl. destruct k as [|k].
  - rewrite Nat.add_0_r, Nat.eqb_refl. simpl. apply filterIndexFrom_past. lia.
  - destruct (Nat.eqb_spec j (j + S k)); [lia|]. simpl. f_equal.
    replace (j + S k)%nat with (S j + k)%nat by lia. apply IH.
Qed.

Lemma filterIndex_delete {A} (l : list A) (k : nat) :
  filterIndex (λ i, negb (i =? k)) l = delete k l.
Proof. apply (filterIndexFrom_delete l 0 k). Qed.

Lemma RecInv_startRecording granted s :
  truthy (recording s) = false → RecInv s → RecInv (startRecording granted s).
Proof.
  intros Hc [H1 H2 H3 H4 H5 H6 H7].
  assert (Hidle : isRecording s = false).
  { destruct (isRecording s); [|done]. destruct H1 as [H1 _].
    destruct (H1 eq_refl) as [h Hh]. unfold activeRecording in Hh.
    destruct (recording s); done. }
  unfold startRecording. destruct granted; simpl.
  - split; unfold activeRecording; simpl.
    + rewrite lookup_insert_eq. simpl. split; eauto.
    + intros Hd. destruct (H2 Hd) as (h & Hh & _). rewrite Hh in Hc. done.
    + intros Hp. rewrite H3 in Hidle; done.
    + intros h [x Hx]. destruct (decide (h = nextObject (device s))) as [->|Hne]; [lia|].
      rewrite lookup_insert_ne in Hx by done. specialize (H4 h (ex_intro _ x Hx)). lia.
    + intros c Hc'. destruct (H5 c Hc') as (r & Hr & Hf). exists r. split; [done|].
      rewrite lookup_insert_ne; [done|]. intros <-.
      specialize (H4 _ (ex_intro _ _ Hf)). lia.
    + intros c Hc' Heq. destruct (H5 c Hc') as (r & Hr & Hf).
      rewrite Hr in Heq. simplify_eq. specialize (H4 _ (ex_intro _ _ Hf)). lia.
    + done.
  - split; unfold activeRecording in *; simpl; done.
Qed.

Lemma stopRecording_Some s s' :
  stopRecording s = Some s' →
  ∃ h, recording s = JObj h ∧ isLive (captures (device s) !! h) = true ∧
    s' = s |> setDevice (setAudioModeAsync false
                           (withCaptures (<[h := Finalized]> (captures (device s))) (device s)))
           |> setIsRecording false |> setDialogVisible true |> setTimer 0.
Proof.
  unfold stopRecording, stopAndUnloadAsync. intros H.
  destruct (recording s) as [| |h]; try done.
  destruct (isLive (captures (device s) !! h)) eqn:Hl; simplify_eq/=. eauto.
Qed.

Lemma togglePause_Some s s' :
  togglePause s = Some s' →
  ∃ h, recording s = JObj h ∧ isLive (captures (device s) !! h) = true ∧
    s' = s |> setDevice (withCaptures
                           (<[h := if isPaused s then Capturing else Suspended]>
                              (captures (device s))) (device s))
           |> setIsPaused (negb (isPaused s)).
Proof.
  unfold togglePause, startAsync, pauseAsync. intros H.
  destruct (recording s) as [| |h]; try done.
  destruct (isPaused s), (isLive (captures (device s) !! h)) eqn:Hl; simplify_eq/=; eauto.
Qed.

Lemma active_isRecording s h :
  RecInv s → recording s = JObj h → isLive (captures (device s) !! h) = true →
  isRecording s = true.
Proof.
  intros HI Hc Hl. apply (inv_active s HI). unfold activeRecording.
  rewrite Hc, Hl. eauto.
Qed.

Lemma RecInv_stopRecording s s' :
  isPaused s = false → RecInv s → stopRecording s = Some s' → RecInv s'.
Proof.
  intros Hp HI (h & Hc & Hl & ->)%stopRecording_Some.
  destruct HI as [H1 H2 H3 H4 H5 H6 H7].
  split; unfold activeRecording; simpl; rewrite ?Hc, ?lookup_insert_eq; simpl.
  - split; [done | by intros [? ?]].
  - intros _. exists h. by rewrite lookup_insert_eq.
  - by rewrite Hp.
  - intros k [x Hx]. apply H4. destruct (decide (k = h)) as [->|Hne].
    + destruct (captures (device s) !! h); [eauto | done].
    + rewrite lookup_insert_ne in Hx by done. eauto.
  - intros c Hin. destruct (H5 c Hin) as (r & Hr & Hf). exists r. split; [done|].
    rewrite lookup_insert_ne; [done|]. intros <-. apply (H6 c Hin). congruence.
  - intros c Hin. rewrite <- Hc. by apply H6.
  - done.
Qed.

Lemma RecInv_togglePause s s' :
  RecInv s → togglePause s = Some s' → RecInv s'.
Proof.
  intros HI (h & Hc & Hl & ->)%togglePause_Some.
  pose proof (active_isRecording s h HI Hc Hl) as Hrec.
  destruct HI as [H1 H2 H3 H4 H5 H6 H7].
  split; unfold activeRecording; simpl; rewrite ?Hc, ?lookup_insert_eq; simpl.
  - rewrite Hrec. destruct (isPaused s); simpl; split; eauto.
  - intros Hd. destruct (H2 Hd) as (k & Hk & Hf).
    rewrite Hc in Hk. injection Hk as <-. by rewrite Hf in Hl.
  - done.
  - intros k [x Hx]. apply H4. destruct (decide (k = h)) as [->|Hne].
    + destruct (captures (device s) !! h); [eauto | done].
    + rewrite lookup_insert_ne in Hx by done. eauto.
  - intros c Hin. destruct (H5 c Hin) as (r & Hr & Hf). exists r. split; [done|].
    rewrite lookup_insert_ne; [done|]. intros <-. apply (H6 c Hin). congruence.
  - intros c Hin. rewrite <- Hc. by apply H6.
  - done.
Qed.

Lemma RecInv_handleSaveRecording now s :
  isDialogVisible s = true → RecInv s → RecInv (handleSaveRecording now s).
Proof.
  intros Hd HI. unfold handleSaveRecording.
  destruct (nonEmpty (trim (recordingName s))); [|done].
  destruct HI as [H1 H2 H3 H4 H5 H6 H7].
  destruct (H2 Hd) as (h & Hc & Hf).
  assert (Hidle : isRecording s = false).
  { destruct (isRecording s); [|done]. destruct H1 as [H1 _].
    destruct (H1 eq_refl) as [k Hk]. unfold activeRecording in Hk.
    rewrite Hc, Hf in Hk. done. }
  split; unfold activeRecording; simpl.
  - rewrite Hidle. split; [done | by intros [? ?]].
  - done.
  - done.
  - done.
  - intros c [Hin | ->%list_elem_of_singleton]%elem_of_app; [by apply H5|].
    simpl. eauto.
  - intros c [Hin | ->%list_elem_of_singleton]%elem_of_app.
    + destruct (H5 c Hin) as (r & -> & _). done.
    + simpl. by rewrite Hc.
  - rewrite fmap_app. apply NoDup_app. split; [done|]. split.
    + intros x Hx [->|Hn]%elem_of_cons; [|by apply elem_of_nil in Hn].
      apply list_elem_of_fmap in Hx as (c & Hxc & Hin). by apply (H6 c Hin).
    + apply NoDup_singleton.
Qed.

Lemma onPressPlay_Some loads index s s' :
  onPressPlay loads index s = Some s' →
  ∃ c r, recordings s !! index = Some c ∧ clip_recording c = JObj r ∧
    captures (device s) !! r = Some Finalized ∧ loads = true ∧
    s' = s |> setDevice (mkDevice (S (nextObject (device s))) (captures (device s))
                           (<[nextObject (device s) := r]> (sounds (device s)))
                           (timers (device s)) (nextTimer (device s))
                           (allowsRecordingIOS (device s)))
           |> setSound (JObj (nextObject (device s)))
           |> setPlaying (Z.of_nat index).
Proof.
  unfold onPressPlay, createNewLoadedSoundAsync. intros H.
  destruct (recordings s !! index) as [c|]; [|done]. simpl in H.
  destruct (clip_recording c) as [| |r] eqn:Hr; try done.
  destruct (captures (device s) !! r) as [[| |]|] eqn:Hf; try done.
  destruct loads; simplify_eq/=. eauto 10.
Qed.

Ltac frame_RecInv HI :=
  destruct HI as [H1 H2 H3 H4 H5 H6 H7];
  split; unfold activeRecording in *; simpl in *; try done.

Lemma RecInv_handle e s : RecInv s → enabled e s = true → RecInv (handle e s).
Proof.
  intros HI He. destruct e as [granted| |text|now| |index loads|index|id|h]; simpl in *.
  - unfold onPressRecord.
    destruct (truthy (recording s)) eqn:Ht; simpl; [|by apply RecInv_startRecording].
    destruct (isPaused s) eqn:Hp.
    + destruct (togglePause s) as [s'|] eqn:Hs; [|done]. by eapply RecInv_togglePause.
    + destruct (stopRecording s) as [s'|] eqn:Hs; [|done]. by eapply RecInv_stopRecording.
  - destruct (togglePause s) as [s'|] eqn:Hs; [|done]. by eapply RecInv_togglePause.
  - frame_RecInv HI.
  - by apply RecInv_handleSaveRecording.
  - frame_RecInv HI.
  - destruct (onPressPlay loads index s) as [s'|] eqn:Hs; [|done].
    apply onPressPlay_Some in Hs as (c & r & _ & _ & _ & _ & ->).
    frame_RecInv HI. intros k Hk. specialize (H4 k Hk). lia.
  - unfold onPressTrash. rewrite filterIndex_delete.
    frame_RecInv HI.
    + intros c Hc. eauto using list_elem_of_delete_inv.
    + intros c Hc. eauto using list_elem_of_delete_inv.
    + rewrite list_fmap_delete. eapply sublist_NoDup; [done | apply sublist_delete].
  - frame_RecInv HI.
  - frame_RecInv HI.
Qed.

Lemma reachable_RecInv s : reachable s → RecInv s.
Proof.
  induction 1 as [|e s Hs IH He]; [apply RecInv_mounted|].
  unfold step. by apply RecInv_render, RecInv_handle.
Qed.

(** ** The ticker *)

Ltac unfold_handle :=
  unfold handle, onPressRecord, togglePause, stopRecording, startRecording,
    handleSaveRecording, onPressCancel, onChangeText, onPressPlay, onPressTrash,
    onInterval, onPlaybackStatusUpdate, createAsync, stopAndUnloadAsync,
    pauseAsync, startAsync, createNewLoadedSoundAsync, unloadAsync,
    mbind, option_bind;
  repeat case_match; simplify_eq/=; try done.

Lemma handle_timers e s :
  timers (device (handle e s)) = timers (device s) ∧
  interval (handle e s) = interval s ∧
  intervalId (handle e s) = intervalId s.
Proof. destruct e; unfold_handle. Qed.

Lemma TimerInv_timerEffect s :
  timers (device s) = liveInterval s → TimerInv (timerEffect s).
Proof.
  intros Ht. unfold timerEffect, liveInterval in *.
  assert (H0 : timers (clearInterval (interval s) (device s)) = ∅).
  { unfold clearInterval. destruct (interval s); simpl; rewrite ?Ht;
      [done | done | apply difference_diag_L]. }
  destruct (isRecording s && negb (isPaused s)) eqn:Hc; simpl.
  - split; unfold liveInterval; simpl; [|done..]. rewrite H0. apply union_empty_r_L.
  - split; unfold liveInterval; simpl; [|done..].
    destruct (truthy_num (intervalId s)); [|done].
    unfold clearInterval at 1. destruct (intervalId s); simpl; rewrite ?H0;
      [done | done | apply empty_difference_L].
Qed.

Lemma TimerInv_soundCleanup prev s : TimerInv s → TimerInv (soundCleanup prev s).
Proof. intros [H1 H2 H3]. destruct prev; split; done. Qed.

Lemma TimerInv_render p s :
  timers (device s) = liveInterval s →
  intervalId s = interval s →
  truthy (interval s) = isRecording p && negb (isPaused p) →
  TimerInv (render p s).
Proof.
  intros H1 H2 H3. unfold render.
  destruct (decide ((isRecording p, isPaused p) = (isRecording s, isPaused s))) as [Hd|Hd].
  - injection Hd as Hr Hp. rewrite Hr, Hp in H3.
    destruct (decide (sound p = sound s));
      [|apply TimerInv_soundCleanup]; by split.
  - destruct (decide (sound p = sound s));
      [|apply TimerInv_soundCleanup]; by apply TimerInv_timerEffect.
Qed.

Lemma TimerInv_step e s : TimerInv s → TimerInv (step e s).
Proof.
  intros [H1 H2 H3]. destruct (handle_timers e s) as (E1 & E2 & E3).
  apply TimerInv_render; unfold liveInterval in *; by rewrite ?E1, ?E2, ?E3.
Qed.

Lemma TimerInv_mounted : TimerInv mounted.
Proof. by apply TimerInv_timerEffect. Qed.

Lemma reachable_TimerInv s : reachable s → TimerInv s.
Proof. induction 1; [apply TimerInv_mounted | by apply TimerInv_step]. Qed.

(** ** Playback handles *)

Lemma render_sounds p s :
  sounds (device (render p s)) =
    if decide (sound p = sound s) then sounds (device s)
    else match sound p with
         | JObj h => delete h (sounds (device s))
         | _ => sounds (device s)
         end.
Proof. unfold_render. Qed.

(** Every handler but the play handler keeps the tracked sound, loads
    nothing and never reuses an object number. *)
Lemma handle_sounds e s :
  (∀ index loads, e ≠ PressPlay index loads) →
  sound (handle e s) = sound s ∧
  (∀ h, is_Some (sounds (device (handle e s)) !! h) → is_Some (sounds (device s) !! h)) ∧
  (nextObject (device s) ≤ nextObject (device (handle e s)))%nat.
Proof.
  intros Hne. destruct e; try (by destruct (Hne index loads)); unfold_handle;
    split_and!; try done; try lia.
  intros k Hk. by apply lookup_delete_is_Some in Hk as [_ ?].
Qed.

(** A successful press on a row: the fresh sound is the only one left
    loaded, it plays the row's recording, and the row is marked. *)
Lemma step_PressPlay s index c r :
  SoundInv s →
  recordings s !! index = Some c →
  clip_recording c = JObj r →
  captures (device s) !! r = Some Finalized →
  let s' := step (PressPlay index true) s in
  sound s' = JObj (nextObject (device s)) ∧
  playing s' = Z.of_nat index ∧
  sounds (device s') = {[nextObject (device s) := r]} ∧
  nextObject (device s') = S (nextObject (device s)) ∧
  recordings s' = recordings s.
Proof.
  intros [H1 H2] Hc Hr Hf s'. subst s'. unfold step.
  destruct (render_cells s (handle (PressPlay index true) s)) as (E1 & _ & _ & E2 & E3 & _).
  destruct (render_captures s (handle (PressPlay index true) s)) as [_ E4].
  rewrite E1, E2, E3, E4, render_sounds. clear E1 E2 E3 E4.
  simpl. unfold onPressPlay, createNewLoadedSoundAsync. rewrite Hc. simpl.
  rewrite Hr, Hf. simpl. split_and!; try done.
  assert (Hnew : sounds (device s) !! nextObject (device s) = None).
  { destruct (sounds (device s) !! nextObject (device s)) eqn:E; [|done].
    specialize (H2 _ (H1 _ (ex_intro _ _ E))). lia. }
  case_decide as Hd; [specialize (H2 _ Hd); lia|].
  apply map_eq. intros k.
  destruct (decide (k = nextObject (device s))) as [->|Hk].
  - rewrite lookup_singleton_eq. destruct (sound s) as [| |h] eqn:Hs.
    + by rewrite lookup_insert_eq.
    + by rewrite lookup_insert_eq.
    + rewrite lookup_delete_ne, lookup_insert_eq; [done|]. intros ->. by apply Hd.
  - rewrite lookup_singleton_ne by done.
    assert (Hold : ∀ h, sound s ≠ JObj h → sounds (device s) !! h = None).
    { intros h Hh. destruct (sounds (device s) !! h) eqn:E; [|done].
      by destruct (Hh (H1 h (ex_intro _ _ E))). }
    destruct (sound s) as [| |h] eqn:Hs.
    + rewrite lookup_insert_ne by done. by apply Hold.
    + rewrite lookup_insert_ne by done. by apply Hold.
    + destruct (decide (k = h)) as [->|Hkh]; [by rewrite lookup_delete_eq|].
      rewrite lookup_delete_ne, lookup_insert_ne by done. apply Hold. congruence.
Qed.

Lemma SoundInv_step e s : SoundInv s → SoundInv (step e s).
Proof.
  intros HS.
  assert (Hplay : (∃ index loads, e = PressPlay index loads) ∨
                  (∀ index loads, e ≠ PressPlay index loads)).
  { destruct e; eauto. }
  destruct Hplay as [(index & loads & ->) | Hne].
  - destruct (onPressPlay loads index s) as [s'|] eqn:Hs.
    + apply onPressPlay_Some in Hs as (c & r & Hc & Hr & Hf & -> & _).
      destruct (step_PressPlay s index c r HS Hc Hr Hf) as (E1 & _ & E3 & E4 & _).
      split; rewrite ?E1, ?E3, ?E4.
      * intros h [x Hx]. apply lookup_singleton_Some in Hx as [<- _]. done.
      * intros h [= <-]. lia.
    + unfold step. simpl. rewrite Hs. simpl.
      replace (render s s) with s; [done|]. unfold_render.
  - destruct (handle_sounds e s Hne) as (E1 & E2 & E3). destruct HS as [H1 H2].
    unfold step.
    destruct (render_cells s (handle e s)) as (_ & _ & _ & _ & E4 & _).
    destruct (render_captures s (handle e s)) as [_ E5].
    split; rewrite ?E4, ?E5, ?render_sounds, ?E1.
    + rewrite decide_True by done. intros h Hh. auto.
    + intros h Hh. specialize (H2 h Hh). lia.
Qed.

Lemma SoundInv_mounted : SoundInv mounted.
Proof. split; cbn; [|done]. intros h [x Hx]. by rewrite lookup_empty in Hx. Qed.

Lemma reachable_SoundInv s : reachable s → SoundInv s.
Proof.
  induction 1; [apply SoundInv_mounted | by apply SoundInv_step].
Qed.

(** ** Runs *)

Lemma reachable_exec e s : reachable s → reachable (exec e s).
Proof.
  intros Hs. unfold exec. destruct (enabled e s) eqn:He; [|done].
  by apply reachable_step.
Qed.

Lemma reachable_run es s : reachable s → reachable (run es s).
Proof.
  revert s. induction es as [|e es IH]; intros s Hs; [done|].
  apply IH. by apply reachable_exec.
Qed.

Lemma reachable_recordingNow : reachable recordingNow.
Proof. apply reachable_run, reachable_mounted. Qed.

Lemma reachable_pendingSave : reachable pendingSave.
Proof. apply reachable_run, reachable_recordingNow. Qed.

Lemma reachable_savedOne : reachable savedOne.
Proof. apply reachable_run, reachable_mounted. Qed.

Lemma reachable_savedTwo : reachable savedTwo.
Proof. apply reachable_run, reachable_savedOne. Qed.

Lemma reachable_playingFirst : reachable playingFirst.
Proof. apply reachable_run, reachable_savedOne. Qed.

Lemma reachable_playingFirstOfTwo : reachable playingFirstOfTwo.
Proof. apply reachable_run, reachable_savedTwo. Qed.


Lemma reachable_playingSecondAfterFirst : reachable playingSecondAfterFirst.
Proof. apply reachable_run, reachable_playingFirstOfTwo. Qed.

Lemma render_id p s :
  isRecording p = isRecording s → isPaused p = isPaused s → sound p = sound s →
  render p s = s.
Proof.
  intros H1 H2 H3. unfold render. rewrite H1, H2, H3.
  by rewrite !decide_True by done.
Qed.

(** ** Trimming *)

Lemma trimStart_nil s : trimStart s = [] ↔ Forall (λ c, isWhiteSpace c = true) s.
Proof.
  induction s as [|c s IH]; simpl; [by split|].
  destruct (isWhiteSpace c) eqn:Hc.
  - rewrite IH. split; [by constructor | by inversion 1].
  - split; [done | inversion 1; congruence].
Qed.

Lemma trimStart_head s c t : trimStart s = c :: t → isWhiteSpace c = false.
Proof.
  induction s as [|a s IH]; simpl; [done|].
  destruct (isWhiteSpace a) eqn:Ha; [done|]. by intros [= <- _].
Qed.

Lemma trim_nil s : trim s = [] ↔ Forall (λ c, isWhiteSpace c = true) s.
Proof.
  unfold trim, trimEnd. rewrite <- trimStart_nil. split.
  - intros H.
    assert (H' : trimStart (rev (trimStart s)) = []).
    { by rewrite <- (rev_involutive (trimStart (rev (trimStart s)))), H. }
    apply trimStart_nil in H'. rewrite Forall_forall in H'.
    destruct (trimStart s) as [|c t] eqn:E; [done|].
    apply trimStart_head in E. rewrite H' in E; [done|].
    apply list_elem_of_In. rewrite <- in_rev. by left.
  - intros ->. done.
Qed.

(** C2.  Saving with a name that trims to the empty string (exactly the
    names made of white space only) changes nothing at all; saving with
    any other name appends one clip at the end of [recordings], made of
    the name as typed, the handle in [recording] and the time stamp of
    the press, and empties [recording]. *)
Theorem save_appends_or_ignores (s : App) (now : jsstring) :
  (trim (recordingName s) = [] ↔ Forall (λ c, isWhiteSpace c = true) (recordingName s)) ∧
  (trim (recordingName s) = [] → step (PressSave now) s = s) ∧
  (trim (recordingName s) ≠ [] →
     let s' := step (PressSave now) s in
     recordings s' = recordings s ++ [mkClip (recordingName s) (recording s) now] ∧
     recording s' = JUndefined ∧
     isDialogVisible s' = false ∧
     recordingName s' = []).
Proof.
  split; [apply trim_nil|]. unfold step. simpl. unfold handleSaveRecording.
  split; intros Ht.
  - rewrite Ht. simpl. by apply render_id.
  - destruct (trim (recordingName s)) as [|c t] eqn:E; [done|]. simpl.
    destruct (render_cells s
      (s |> setRecordings (recordings s ++ [mkClip (recordingName s) (recording s) now])
         |> setRecording JUndefined |> setDialogVisible false |> setRecordingName []))
      as (E1 & E2 & E3 & _ & _ & E4 & _).
    by rewrite E1, E2, E3, E4.
Qed.

Lemma save_appends_or_ignores_witness :
  step (PressSave (js "now")) (exec (ChangeText (js "  ")) pendingSave)
    = exec (ChangeText (js "  ")) pendingSave
  ∧ recordings (step (PressSave (js "now")) (exec (ChangeText (js "Take 1")) pendingSave))
    = [mkClip (js "Take 1") (JObj 0) (js "now")].
Proof.
  split.
  - apply (save_appends_or_ignores (exec (ChangeText (js "  ")) pendingSave) (js "now")).
    reflexivity.
  - apply (save_appends_or_ignores (exec (ChangeText (js "Take 1")) pendingSave) (js "now")).
    discriminate.
Defined.

(** ** Deleting a row *)

Lemma step_PressTrash index s :
  step (PressTrash index) s = s |> setRecordings (delete index (recordings s)).
Proof.
  unfold step. simpl. unfold onPressTrash. rewrite filterIndex_delete.
  by apply render_id.
Qed.

(** C3, as the handler has it.  Pressing the trash icon of row [i]
    removes the clip at position [i] and moves the later clips one
    position up.  Nothing else changes: the marked row, the tracked
    sound and the device are as before. *)
Theorem trash_removes_row_only (s : App) (i : nat) :
  (i < length (recordings s))%nat →
  let s' := step (PressTrash i) s in
  length (recordings s') = pred (length (recordings s)) ∧
  (∀ k, (k < i)%nat → recordings s' !! k = recordings s !! k) ∧
  (∀ k, (i ≤ k)%nat → recordings s' !! k = recordings s !! S k) ∧
  playing s' = playing s ∧
  sound s' = sound s ∧
  device s' = device s.
Proof.
  intros Hi s'. subst s'. rewrite step_PressTrash. simpl. split_and!; try done.
  - rewrite length_delete; [lia|]. by apply lookup_lt_is_Some_2.
  - intros k Hk. by apply list_lookup_delete_lt.
  - intros k Hk. by apply list_lookup_delete_ge.
Qed.

Lemma trash_removes_row_only_witness :
  let s' := step (PressTrash 0) savedTwo in
  length (recordings s') = 1%nat ∧ playing s' = playing savedTwo.
Proof.
  destruct (trash_removes_row_only savedTwo 0) as (H1 & _ & _ & H2 & _).
  - vm_compute. lia.
  - split; [exact H1 | exact H2].
Defined.

(** C3 as stated fails: deleting the clip that is playing leaves the
    row mark and the loaded sound in place. *)
Lemma trash_playing_row_counterexample :
  playing playingFirst = 0%Z ∧
  sound playingFirst = JObj 1%nat ∧
  sounds (device playingFirst) !! 1%nat = Some 0%nat ∧
  enabled (PressTrash 0) playingFirst = true ∧
  let s' := step (PressTrash 0) playingFirst in
  recordings s' = [] ∧
  playing s' ≠ (-1)%Z ∧
  sounds (device s') !! 1%nat = Some 0%nat.
Proof. vm_compute. split_and!; done. Qed.



(** ** Starting playback *)

(** What a successful press on row [j] does while the sound [h] is
    loaded, whichever row [h] belongs to. *)
Lemma press_play_while_playing (s : App) (j h r : nat) (c : Clip) :
  reachable s →
  sound s = JObj h →
  recordings s !! j = Some c →
  clip_recording c = JObj r →
  let s' := step (PressPlay j true) s in
  sounds (device s') !! h = None ∧
  ∃ h', h' ≠ h ∧ sound s' = JObj h' ∧ playing s' = Z.of_nat j ∧
        sounds (device s') = {[h' := r]}.
Proof.
  intros Hs Hh Hc Hr s'.
  pose proof (reachable_RecInv s Hs) as HR. pose proof (reachable_SoundInv s Hs) as HS.
  destruct (inv_clips s HR c) as (r' & Hr' & Hf); [by eapply list_elem_of_lookup_2|].
  assert (r' = r) as -> by congruence.
  destruct (step_PressPlay s j c r HS Hc Hr Hf) as (E1 & E2 & E3 & _).
  pose proof (inv_sound_fresh s HS h Hh) as Hlt.
  subst s'. split.
  - rewrite E3. apply lookup_singleton_ne. lia.
  - exists (nextObject (device s)). split_and!; [lia | done..].
Qed.

(** The state a successful press on row [j] leaves behind before the
    re-render: the new sound is loaded and tracked, the row is marked,
    and a sound that was loaded before is loaded still. *)
Lemma handle_PressPlay (s : App) (j h r0 r : nat) (c : Clip) :
  reachable s →
  sounds (device s) !! h = Some r0 →
  recordings s !! j = Some c →
  clip_recording c = JObj r →
  let t := handle (PressPlay j true) s in
  sound t = JObj (nextObject (device s)) ∧
  playing t = Z.of_nat j ∧
  sounds (device t) !! nextObject (device s) = Some r ∧
  sounds (device t) !! h = Some r0 ∧
  h ≠ nextObject (device s).
Proof.
  intros Hs Hh Hc Hr t.
  pose proof (reachable_RecInv s Hs) as HR. pose proof (reachable_SoundInv s Hs) as HS.
  destruct (inv_clips s HR c) as (r' & Hr' & Hf); [by eapply list_elem_of_lookup_2|].
  assert (r' = r) as -> by congruence.
  assert (Hne : h ≠ nextObject (device s)).
  { pose proof (inv_sound_fresh s HS h (inv_tracked s HS h (ex_intro _ _ Hh))). lia. }
  subst t. simpl. unfold onPressPlay, createNewLoadedSoundAsync.
  rewrite Hc. simpl. rewrite Hr, Hf. simpl.
  split_and!; [done | done | by rewrite lookup_insert_eq | | done].
  by rewrite lookup_insert_ne.
Qed.

(** C1 as stated fails in its order: when the handler of a press on
    row 1 has run, the new sound 3 is loaded, tracked and marked while
    the prior sound 2 of row 0 is loaded still; nothing was released
    first. *)
Lemma play_other_row_order_counterexample :
  playing playingFirstOfTwo = 0%Z ∧
  sound playingFirstOfTwo = JObj 2%nat ∧
  sounds (device playingFirstOfTwo) !! 2%nat = Some 0%nat ∧
  enabled (PressPlay 1 true) playingFirstOfTwo = true ∧
  let t := handle (PressPlay 1 true) playingFirstOfTwo in
  sound t = JObj 3%nat ∧
  playing t = 1%Z ∧
  sounds (device t) !! 3%nat = Some 1%nat ∧
  sounds (device t) !! 2%nat = Some 0%nat.
Proof. vm_compute. split_and!; done. Qed.

(** C1, as the code orders it.  While the sound [h] of row [i] is
    playing, a successful press on another row [j] first loads, tracks
    and marks the new sound, with [h] loaded still; [h] is unloaded
    after that, by the clean-up of the sound effect at the re-render.
    After the step exactly one sound is loaded, it is the tracked one,
    it plays the recording of row [j], and [j] is the marked row. *)
Theorem play_other_row_replaces_sound (s : App) (i j h r0 r : nat) (c : Clip) :
  reachable s →
  playing s = Z.of_nat i →
  sound s = JObj h →
  sounds (device s) !! h = Some r0 →
  i ≠ j →
  recordings s !! j = Some c →
  clip_recording c = JObj r →
  let t := handle (PressPlay j true) s in
  let s' := step (PressPlay j true) s in
  (∃ h', h' ≠ h ∧ sound t = JObj h' ∧ playing t = Z.of_nat j ∧
         sounds (device t) !! h' = Some r ∧ sounds (device t) !! h = Some r0) ∧
  s' = render s t ∧
  sounds (device s') !! h = None ∧
  size (sounds (device s')) = 1%nat ∧
  playing s' = Z.of_nat j ∧
  playing s' ≠ playing s ∧
  ∃ h', h' ≠ h ∧ sound s' = JObj h' ∧ sounds (device s') = {[h' := r]}.
Proof.
  intros Hs Hi Hh Hl Hij Hc Hr t s'.
  destruct (handle_PressPlay s j h r0 r c Hs Hl Hc Hr) as (T1 & T2 & T3 & T4 & T5).
  fold t in T1, T2, T3, T4.
  destruct (press_play_while_playing s j h r c Hs Hh Hc Hr)
    as (Hgone & h' & Hne & Hsound & Hplay & Hmap).
  fold s' in Hgone, Hsound, Hplay, Hmap.
  split_and!.
  - exists (nextObject (device s)). by split_and!.
  - done.
  - exact Hgone.
  - rewrite Hmap. apply map_size_singleton.
  - exact Hplay.
  - rewrite Hplay, Hi. lia.
  - exists h'. by split_and!.
Qed.

Lemma play_other_row_replaces_sound_witness :
  let t := handle (PressPlay 1 true) playingFirstOfTwo in
  let s' := step (PressPlay 1 true) playingFirstOfTwo in
  (∃ h', h' ≠ 2%nat ∧ sound t = JObj h' ∧ playing t = 1%Z ∧
         sounds (device t) !! h' = Some 1%nat ∧ sounds (device t) !! 2%nat = Some 0%nat) ∧
  s' = render playingFirstOfTwo t ∧
  sounds (device s') !! 2%nat = None ∧
  size (sounds (device s')) = 1%nat ∧
  playing s' = 1%Z ∧
  playing s' ≠ playing playingFirstOfTwo ∧
  ∃ h', h' ≠ 2%nat ∧ sound s' = JObj h' ∧ sounds (device s') = {[h' := 1%nat]}.
Proof.
  apply (play_other_row_replaces_sound playingFirstOfTwo 0 1 2 0 1 take2).
  - exact reachable_playingFirstOfTwo.
  - reflexivity.
  - reflexivity.
  - reflexivity.
  - lia.
  - reflexivity.
  - reflexivity.
Defined.

(** C4 as stated fails: a second press on the playing row leaves the
    row marked and a sound loaded, a new one. *)
Lemma press_playing_row_counterexample :
  playing playingFirst = 0%Z ∧
  sound playingFirst = JObj 1%nat ∧
  sounds (device playingFirst) !! 1%nat = Some 0%nat ∧
  enabled (PressPlay 0 true) playingFirst = true ∧
  let s' := step (PressPlay 0 true) playingFirst in
  playing s' ≠ (-1)%Z ∧
  sound s' = JObj 2%nat ∧
  sounds (device s') !! 2%nat = Some 0%nat.
Proof. vm_compute. split_and!; done. Qed.

(** C4, as the handler has it.  A successful press on the marked row
    is never a stop: the sound [h] is unloaded, a new sound of the clip
    now at that row is loaded and tracked, and the row stays marked.
    When [h] was playing that clip's recording the clip starts again;
    [h] plays another recording exactly when a row above was deleted
    while it played. *)
Theorem play_same_row_restarts (s : App) (index h r0 r : nat) (c : Clip) :
  reachable s →
  playing s = Z.of_nat index →
  sound s = JObj h →
  sounds (device s) !! h = Some r0 →
  recordings s !! index = Some c →
  clip_recording c = JObj r →
  let s' := step (PressPlay index true) s in
  playing s' = Z.of_nat index ∧
  playing s' ≠ (-1)%Z ∧
  sounds (device s') !! h = None ∧
  ∃ h', h' ≠ h ∧ sound s' = JObj h' ∧ sounds (device s') = {[h' := r]} ∧
        (sounds (device s') !! h' = sounds (device s) !! h ↔ r0 = r).
Proof.
  intros Hs _ Hh Hl Hc Hr s'.
  destruct (press_play_while_playing s index h r c Hs Hh Hc Hr)
    as (H1 & h' & H2 & H3 & H4 & H5).
  fold s' in H1, H3, H4, H5.
  split_and!; [done | rewrite H4; lia | done |].
  exists h'. split_and!; [done..|].
  rewrite H5, lookup_singleton_eq, Hl. split; congruence.
Qed.

Lemma play_same_row_restarts_witness :
  let s' := step (PressPlay 0 true) playingFirst in
  playing s' = 0%Z ∧
  playing s' ≠ (-1)%Z ∧
  sounds (device s') !! 1%nat = None ∧
  ∃ h', h' ≠ 1%nat ∧ sound s' = JObj h' ∧ sounds (device s') = {[h' := 0%nat]} ∧
        (sounds (device s') !! h' = sounds (device playingFirst) !! 1%nat ↔ 0%nat = 0%nat).
Proof.
  apply (play_same_row_restarts playingFirst 0 1 0 0 memo).
  - exact reachable_playingFirst.
  - reflexivity.
  - reflexivity.
  - reflexivity.
  - reflexivity.
  - reflexivity.
Defined.

(** The other case: with three clips, the second played and the first
    then deleted, row 1 is marked while the sound plays recording 1, now
    at row 0; a press on row 1 loads recording 2. *)
Lemma press_marked_row_after_trash :
  reachable markShifted ∧
  playing markShifted = 1%Z ∧
  sound markShifted = JObj 3%nat ∧
  sounds (device markShifted) !! 3%nat = Some 1%nat ∧
  (clip_recording <$> recordings markShifted) = [JObj 1%nat; JObj 2%nat] ∧
  let s' := step (PressPlay 1 true) markShifted in
  playing s' = 1%Z ∧
  sound s' = JObj 4%nat ∧
  sounds (device s') !! 4%nat = Some 2%nat.
Proof.
  split; [do 2 apply reachable_run; exact reachable_savedTwo|].
  vm_compute. split_and!; done.
Qed.

(** ** Completion of playback *)

Lemma loaded_singleton s h :
  SoundInv s → is_Some (sounds (device s) !! h) → delete h (sounds (device s)) = ∅.
Proof.
  intros [H1 _] Hh. apply map_eq. intros k. rewrite lookup_empty.
  destruct (decide (k = h)) as [->|Hne]; [by rewrite lookup_delete_eq|].
  rewrite lookup_delete_ne by done.
  destruct (sounds (device s) !! k) eqn:E; [|done].
  pose proof (H1 k (ex_intro _ _ E)) as Hk. pose proof (H1 h Hh) as Hh'. congruence.
Qed.

Lemma step_DidJustFinish h s :
  SoundInv s → is_Some (sounds (device s) !! h) →
  playing (step (DidJustFinish h) s) = (-1)%Z ∧
  sound (step (DidJustFinish h) s) = sound s ∧
  sounds (device (step (DidJustFinish h) s)) = ∅.
Proof.
  intros HS Hh. unfold step.
  destruct (render_cells s (handle (DidJustFinish h) s)) as (_ & _ & _ & E1 & E2 & _).
  rewrite E1, E2, render_sounds. simpl. rewrite decide_True by done.
  split_and!; [done | done |]. by apply loaded_singleton.
Qed.




(** ** Elapsed time *)

Lemma step_Tick id s : step (Tick id) s = onInterval s.
Proof. unfold step. simpl. by apply render_id. Qed.

Lemma recording_interval s :
  TimerInv s → recordingState s = Recording → ∃ id, timers (device s) = {[id]}.
Proof.
  intros [H1 H2 _] Hr. unfold recordingState in Hr. rewrite H1. unfold liveInterval.
  destruct (isRecording s), (isPaused s); try done.
  destruct (interval s) as [| |id]; try done. by exists id.
Qed.

Lemma not_recording_interval s :
  TimerInv s → recordingState s ≠ Recording → timers (device s) = ∅.
Proof.
  intros [H1 H2 _] Hr. unfold recordingState in Hr. rewrite H1. unfold liveInterval.
  destruct (isRecording s), (isPaused s); try done;
    by destruct (interval s).
Qed.

Lemma second_recording s :
  TimerInv s → recordingState s = Recording → second s = onInterval s.
Proof.
  intros HT Hr. destruct (recording_interval s HT Hr) as [id Hid].
  unfold second. rewrite Hid, set_fold_singleton. apply step_Tick.
Qed.

Lemma second_not_recording s :
  TimerInv s → recordingState s ≠ Recording → second s = s.
Proof.
  intros HT Hr. unfold second. rewrite (not_recording_interval s HT Hr).
  apply set_fold_empty.
Qed.

Lemma handle_timer e s :
  (∀ id, e ≠ Tick id) → timer (handle e s) = timer s ∨ timer (handle e s) = 0%nat.
Proof.
  intros Hne. destruct e; try (by destruct (Hne id)); unfold_handle; auto.
Qed.

(** C8.  In a reachable state that is [Recording] exactly one interval
    is live and a second adds exactly one to [timer]; in a state that is
    [Paused] or [Idle] no interval is live, a second adds nothing, and no
    event whatever makes [timer] larger.  An interval that fires does so
    in a [Recording] state and adds one. *)
Theorem timer_advances_only_while_recording (s : App) :
  reachable s →
  (recordingState s = Recording →
     (∃ id, timers (device s) = {[id]}) ∧ timer (second s) = S (timer s)) ∧
  (recordingState s ≠ Recording →
     timers (device s) = ∅ ∧ timer (second s) = timer s ∧
     ∀ e, enabled e s = true → (timer (step e s) ≤ timer s)%nat) ∧
  (∀ id, enabled (Tick id) s = true →
     recordingState s = Recording ∧ timer (step (Tick id) s) = S (timer s)).
Proof.
  intros Hs. pose proof (reachable_TimerInv s Hs) as HT. split_and!.
  - intros Hr. split; [by apply recording_interval|].
    rewrite second_recording by done. simpl. lia.
  - intros Hr. pose proof (not_recording_interval s HT Hr) as Hnone.
    split_and!; [done | by rewrite second_not_recording |].
    intros e He.
    assert (Hne : ∀ id, e ≠ Tick id).
    { intros id ->. simpl in He. apply bool_decide_eq_true in He.
      rewrite Hnone in He. by apply elem_of_empty in He. }
    unfold step. destruct (render_cells s (handle e s)) as (_&_&_&_&_&_&_&E&_).
    rewrite E. destruct (handle_timer e s Hne) as [-> | ->]; lia.
  - intros id He. simpl in He. apply bool_decide_eq_true in He.
    rewrite step_Tick. simpl. split; [|lia].
    destruct (recordingState s) eqn:Hr; [| done |].
    + rewrite not_recording_interval in He by (done || congruence).
      by apply elem_of_empty in He.
    + rewrite not_recording_interval in He by (done || congruence).
      by apply elem_of_empty in He.
Qed.

Lemma timer_advances_only_while_recording_witness :
  timer (second recordingNow) = S (timer recordingNow) ∧
  timer (second pendingSave) = timer pendingSave ∧
  recordingState recordingNow = Recording.
Proof.
  pose proof (timer_advances_only_while_recording recordingNow reachable_recordingNow)
    as (A & _ & C).
  pose proof (timer_advances_only_while_recording pendingSave reachable_pendingSave)
    as (_ & B & _).
  split_and!.
  - apply A. vm_compute. reflexivity.
  - apply B. vm_compute. discriminate.
  - apply (C 1%nat). vm_compute. reflexivity.
Defined.

(** ** The recording cell *)

(** The [recording] cell itself is not emptied by the stop: it keeps
    the handle, now finalized, for the save dialog to commit. *)
Lemma recording_cell_kept_after_stop :
  reachable pendingSave ∧
  recordingState pendingSave = Idle ∧
  recording pendingSave = JObj 0%nat ∧
  activeRecording pendingSave = None ∧
  captures (device pendingSave) !! 0%nat = Some Finalized.
Proof.
  split; [exact reachable_pendingSave|]. vm_compute. split_and!; done.
Qed.

(** C6.  In every reachable state the active recording handle, the
    handle in the [recording] cell that the device is still recording
    through, is there exactly when the state is not [Idle]; in
    particular the cell is non-empty while [Recording] or [Paused]. *)
Theorem live_recording_iff_not_idle (s : App) :
  reachable s →
  (is_Some (activeRecording s) ↔ recordingState s ≠ Idle) ∧
  (recordingState s ≠ Idle → truthy (recording s) = true).
Proof.
  intros Hs. pose proof (inv_active s (reachable_RecInv s Hs)) as Ha.
  assert (Hst : recordingState s ≠ Idle ↔ isRecording s = true).
  { unfold recordingState. destruct (isRecording s), (isPaused s); split; done. }
  split.
  - rewrite Hst. by symmetry.
  - intros Hr. apply Hst, Ha in Hr as [h Hh]. unfold activeRecording in Hh.
    by destruct (recording s).
Qed.

Lemma live_recording_iff_not_idle_witness :
  (is_Some (activeRecording recordingNow) ↔ recordingState recordingNow ≠ Idle) ∧
  (recordingState recordingNow ≠ Idle → truthy (recording recordingNow) = true).
Proof.
  exact (live_recording_iff_not_idle recordingNow reachable_recordingNow).
Defined.

(** ** Start, pause, resume, stop *)

Lemma step_cells e s :
  recordings (step e s) = recordings (handle e s) ∧
  recording (step e s) = recording (handle e s) ∧
  isDialogVisible (step e s) = isDialogVisible (handle e s) ∧
  isRecording (step e s) = isRecording (handle e s) ∧
  timer (step e s) = timer (handle e s) ∧
  isPaused (step e s) = isPaused (handle e s).
Proof.
  unfold step. destruct (render_cells s (handle e s)) as (?&?&?&?&?&?&?&?&?).
  split_and!; done.
Qed.

Lemma active_live s :
  RecInv s → isRecording s = true →
  ∃ h, recording s = JObj h ∧ isLive (captures (device s) !! h) = true.
Proof.
  intros HR Hr. apply (inv_active s HR) in Hr as [h Hh].
  unfold activeRecording in Hh. destruct (recording s) as [| |k]; try done.
  exists k. split; [done|]. by destruct (isLive (captures (device s) !! k)).
Qed.

Lemma call_startRecording s :
  TimerInv s →
  let s' := call (λ s, Some (startRecording true s)) s in
  Capture (nextObject (device s)) s' ∧ isPaused s' = isPaused s ∧ timer s' = timer s.
Proof.
  intros [H1 H2 H3] s'. subst s'. unfold call. simpl.
  destruct (render_cells s (startRecording true s)) as (_ & E1 & _ & _ & _ & _ & E2 & E3 & E4).
  destruct (render_captures s (startRecording true s)) as [E5 _].
  split_and!; [split_and! | by rewrite E4 | by rewrite E3].
  - by apply TimerInv_render.
  - by rewrite E1.
  - rewrite E5. simpl. by rewrite lookup_insert_eq.
  - by rewrite E2.
Qed.

Lemma call_togglePause h s :
  Capture h s →
  let s' := call togglePause s in
  Capture h s' ∧ isPaused s' = negb (isPaused s) ∧ timer s' = timer s.
Proof.
  intros ([H1 H2 H3] & Hc & Hl & Hr) s'. subst s'. unfold call.
  assert (Hs : togglePause s = Some
    (s |> setDevice (withCaptures
                       (<[h := if isPaused s then Capturing else Suspended]>
                          (captures (device s))) (device s))
       |> setIsPaused (negb (isPaused s)))).
  { unfold togglePause, startAsync, pauseAsync. rewrite Hc, Hl. by destruct (isPaused s). }
  rewrite Hs. simpl. set (t := setIsPaused _ _).
  destruct (render_cells s t) as (_ & E1 & _ & _ & _ & _ & E2 & E3 & E4).
  destruct (render_captures s t) as [E5 _].
  split_and!; [split_and! | by rewrite E4 | by rewrite E3].
  - by apply TimerInv_render.
  - by rewrite E1.
  - rewrite E5. subst t. simpl. rewrite lookup_insert_eq. by destruct (isPaused s).
  - by rewrite E2.
Qed.

Lemma call_stopRecording h s :
  Capture h s →
  let s' := call stopRecording s in
  isRecording s' = false ∧ timer s' = 0%nat ∧ isDialogVisible s' = true ∧
  recording s' = JObj h ∧ captures (device s') !! h = Some Finalized.
Proof.
  intros (_ & Hc & Hl & Hr) s'. subst s'. unfold call.
  assert (Hs : stopRecording s = Some
    (s |> setDevice (setAudioModeAsync false
                       (withCaptures (<[h := Finalized]> (captures (device s))) (device s)))
       |> setIsRecording false |> setDialogVisible true |> setTimer 0)).
  { unfold stopRecording, stopAndUnloadAsync. by rewrite Hc, Hl. }
  rewrite Hs. simpl. set (t := setTimer _ _).
  destruct (render_cells s t) as (_ & E1 & _ & _ & _ & E2 & E3 & E4 & _).
  destruct (render_captures s t) as [E5 _].
  rewrite E1, E2, E3, E4, E5. subst t. simpl. by rewrite lookup_insert_eq.
Qed.

Lemma TimerInv_onInterval s : TimerInv s → TimerInv (onInterval s).
Proof. intros [H1 H2 H3]. by split. Qed.

Lemma seconds_spec n s :
  TimerInv s →
  TimerInv (seconds n s) ∧
  recording (seconds n s) = recording s ∧
  captures (device (seconds n s)) = captures (device s) ∧
  isRecording (seconds n s) = isRecording s ∧
  isPaused (seconds n s) = isPaused s ∧
  timer (seconds n s) =
    (if decide (recordingState s = Recording) then timer s + n else timer s)%nat.
Proof.
  intros HT. induction n as [|n (IH0 & IH1 & IH2 & IH3 & IH4 & IH5)].
  - simpl. split_and!; try done. case_decide; lia.
  - change (seconds (S n) s) with (second (seconds n s)).
    assert (Hst : recordingState (seconds n s) = recordingState s).
    { unfold recordingState. by rewrite IH3, IH4. }
    destruct (decide (recordingState s = Recording)) as [Hr|Hr].
    + rewrite second_recording by congruence.
      split_and!; [by apply TimerInv_onInterval | done.. |]. simpl. lia.
    + rewrite second_not_recording by congruence. done.
Qed.

Lemma Capture_seconds n h s :
  Capture h s →
  Capture h (seconds n s) ∧
  isPaused (seconds n s) = isPaused s ∧
  timer (seconds n s) =
    (if decide (recordingState s = Recording) then timer s + n else timer s)%nat.
Proof.
  intros (HT & Hc & Hl & Hr).
  destruct (seconds_spec n s HT) as (E0 & E1 & E2 & E3 & E4 & E5).
  split_and!; [split_and! | done..]; by rewrite ?E1, ?E2, ?E3.
Qed.

(** C7.  From every reachable [Idle] state, [startRecording], then
    [togglePause] (pause), then [togglePause] (resume), then
    [stopRecording], with any number of seconds passing in between, go
    through [Recording], [Paused] and [Recording] and end [Idle] with
    [timer] at 0 and the save dialog open on the finalized handle.
    Seconds are counted only outside the pause. *)
Theorem start_pause_resume_stop (s : App) (n1 n2 n3 : nat) :
  reachable s →
  recordingState s = Idle →
  let s1 := seconds n1 (call (λ s, Some (startRecording true s)) s) in
  let s2 := seconds n2 (call togglePause s1) in
  let s3 := seconds n3 (call togglePause s2) in
  let s4 := call stopRecording s3 in
  recordingState s1 = Recording ∧
  recordingState s2 = Paused ∧
  recordingState s3 = Recording ∧
  timer s3 = (timer s + n1 + n3)%nat ∧
  recordingState s4 = Idle ∧
  timer s4 = 0%nat ∧
  isDialogVisible s4 = true ∧
  ∃ h, recording s4 = JObj h ∧ captures (device s4) !! h = Some Finalized.
Proof.
  intros Hs Hidle s1 s2 s3 s4.
  assert (Hp : isPaused s = false).
  { destruct (isPaused s) eqn:E; [|done].
    unfold recordingState in Hidle.
    rewrite (inv_paused s (reachable_RecInv s Hs) E), E in Hidle. done. }
  set (h := nextObject (device s)).
  (* start *)
  destruct (call_startRecording s (reachable_TimerInv s Hs)) as (A0 & A1 & A2).
  fold h in A0. rewrite Hp in A1.
  assert (A3 : recordingState (call (λ s, Some (startRecording true s)) s) = Recording).
  { unfold recordingState. destruct A0 as (_ & _ & _ & ->). by rewrite A1. }
  destruct (Capture_seconds n1 h _ A0) as (B0 & B1 & B2). fold s1 in B0, B1, B2.
  rewrite A1 in B1. rewrite decide_True, A2 in B2 by done.
  (* pause *)
  destruct (call_togglePause h s1 B0) as (C0 & C1 & C2). rewrite B1 in C1.
  assert (C3 : recordingState (call togglePause s1) = Paused).
  { unfold recordingState. destruct C0 as (_ & _ & _ & ->). by rewrite C1. }
  destruct (Capture_seconds n2 h _ C0) as (D0 & D1 & D2). fold s2 in D0, D1, D2.
  rewrite C1 in D1. rewrite decide_False, C2, B2 in D2 by congruence.
  (* resume *)
  destruct (call_togglePause h s2 D0) as (E0 & E1 & E2). rewrite D1 in E1.
  assert (E3 : recordingState (call togglePause s2) = Recording).
  { unfold recordingState. destruct E0 as (_ & _ & _ & ->). by rewrite E1. }
  destruct (Capture_seconds n3 h _ E0) as (F0 & F1 & F2). fold s3 in F0, F1, F2.
  rewrite E1 in F1. rewrite decide_True, E2, D2 in F2 by done.
  (* stop *)
  destruct (call_stopRecording h s3 F0) as (G1 & G2 & G3 & G4 & G5).
  fold s4 in G1, G2, G3, G4, G5.
  unfold recordingState.
  destruct B0 as (_ & _ & _ & B0), D0 as (_ & _ & _ & D0), F0 as (_ & _ & _ & F0).
  rewrite B0, B1, D0, D1, F0, F1, G1. split_and!; try done. by exists h.
Qed.

Lemma start_pause_resume_stop_witness :
  let s1 := seconds 3 (call (λ s, Some (startRecording true s)) savedOne) in
  let s2 := seconds 2 (call togglePause s1) in
  let s3 := seconds 4 (call togglePause s2) in
  let s4 := call stopRecording s3 in
  timer s3 = (timer savedOne + 3 + 4)%nat ∧ recordingState s4 = Idle ∧ timer s4 = 0%nat.
Proof.
  intros s1 s2 s3 s4.
  destruct (start_pause_resume_stop savedOne 3 2 4)
    as (_ & _ & _ & H1 & H2 & H3 & _).
  - exact reachable_savedOne.
  - vm_compute. reflexivity.
  - split_and!; [exact H1 | exact H2 | exact H3].
Defined.

(** Through the interface: with an empty [recording] cell the footer
    button is [startRecording], and while recording and not paused it is
    [stopRecording]; the [TogglePause] event is [togglePause]. *)
Lemma step_as_call s :
  (truthy (recording s) = false →
     step (PressRecord true) s = call (λ s, Some (startRecording true s)) s) ∧
  step TogglePause s = call togglePause s ∧
  (truthy (recording s) = true → isPaused s = false →
     ∀ granted, step (PressRecord granted) s = call stopRecording s).
Proof.
  unfold step, call. simpl. unfold onPressRecord. split_and!.
  - by intros ->.
  - done.
  - by intros -> ->.
Qed.

(** ** Cancelling the save dialog *)

Lemma Stuck_handle e s :
  Stuck s → enabled e s = true →
  isDialogVisible (handle e s) = false ∧
  recording (handle e s) = recording s ∧
  captures (device (handle e s)) = captures (device s).
Proof.
  intros (Hd & h & Hc & Hf) He.
  destruct e; simpl in He; try congruence; unfold_handle;
    try (split_and!; congruence); exfalso;
    match goal with
    | H : isLive _ = true |- _ => by rewrite Hf in H
    | H : truthy _ = false, H' : recording s = JObj _ |- _ => by rewrite H' in H
    end.
Qed.

Lemma Stuck_exec e s : Stuck s → Stuck (exec e s).
Proof.
  intros HS. unfold exec. destruct (enabled e s) eqn:He; [|done].
  destruct (Stuck_handle e s HS He) as (E1 & E2 & E3).
  destruct HS as (Hd & h & Hc & Hf).
  destruct (step_cells e s) as (_ & F1 & F2 & _).
  destruct (render_captures s (handle e s)) as [F3 _].
  split; [by rewrite F2|]. exists h. unfold step in *.
  by rewrite F1, F3, E2, E3.
Qed.

Lemma Stuck_run es s : Stuck s → Stuck (run es s).
Proof.
  revert s. induction es as [|e es IH]; intros s HS; [done|].
  apply IH. by apply Stuck_exec.
Qed.

Lemma Stuck_idle s : RecInv s → Stuck s → isRecording s = false.
Proof.
  intros HR (_ & h & Hc & Hf). destruct (isRecording s) eqn:E; [|done].
  destruct (active_live s HR E) as (k & Hk & Hl).
  assert (k = h) as -> by congruence. by rewrite Hf in Hl.
Qed.

Lemma Stuck_press granted s : Stuck s → step (PressRecord granted) s = s.
Proof.
  intros (Hd & h & Hc & Hf). unfold step.
  assert (handle (PressRecord granted) s = s) as ->; [|by apply render_id].
  simpl. unfold onPressRecord, togglePause, stopRecording, startAsync, pauseAsync,
    stopAndUnloadAsync.
  rewrite Hc. simpl. rewrite Hf. simpl. by destruct (isPaused s).
Qed.

(** C9, on the code.  Start a recording, stop it, and press [Cancel]
    in the dialog: nothing is appended and the dialog closes, but the
    [recording] cell still holds the finalized handle.  The footer
    button therefore keeps calling [stopRecording] on it, which the
    device rejects, and no later sequence of events records again. *)
Theorem cancel_keeps_recording_cell :
  let s := step PressCancel pendingSave in
  enabled PressCancel pendingSave = true ∧
  recordings s = [] ∧
  isDialogVisible s = false ∧
  recording s = JObj 0%nat ∧
  captures (device s) !! 0%nat = Some Finalized ∧
  (∀ granted, step (PressRecord granted) s = s) ∧
  (∀ es, isRecording (run es s) = false).
Proof.
  intros s.
  assert (H1 : enabled PressCancel pendingSave = true) by (vm_compute; reflexivity).
  assert (H2 : recordings s = []) by (vm_compute; reflexivity).
  assert (H3 : isDialogVisible s = false) by (vm_compute; reflexivity).
  assert (H4 : recording s = JObj 0%nat) by (vm_compute; reflexivity).
  assert (H5 : captures (device s) !! 0%nat = Some Finalized) by (vm_compute; reflexivity).
  assert (HS : Stuck s) by (split; [exact H3 | exists 0%nat; split; [exact H4 | exact H5]]).
  assert (Hr : reachable s).
  { apply reachable_step; [exact reachable_pendingSave | exact H1]. }
  repeat (split; [assumption|]). split.
  - intros granted. apply Stuck_press, HS.
  - intros es. apply Stuck_idle; [|apply Stuck_run, HS].
    apply reachable_RecInv, reachable_run, Hr.
Qed.

(** The sibling handler: after a save the cell is empty and the footer
    button starts the next recording. *)
Lemma save_then_record_again :
  isRecording (run [PressRecord true] savedOne) = true.
Proof. vm_compute. reflexivity. Qed.

(** * Further properties *)

(** ** The timer text *)

Lemma DayFromYear_mono y1 y2 :
  (y1 ≤ y2)%Z → (Date.DayFromYear y1 ≤ Date.DayFromYear y2)%Z.
Proof. unfold Date.DayFromYear. intros H. Z.div_mod_to_equations. lia. Qed.

Lemma DayFromYear_lower y :
  (365 * (y - 1970) ≤ Date.DayFromYear y)%Z ∨ (y < 1970)%Z.
Proof.
  unfold Date.DayFromYear. destruct (decide (y < 1970)%Z); [by right | left].
  Z.div_mod_to_equations. lia.
Qed.

Lemma yearDown_spec t fuel y :
  (Date.TimeFromYear (y - Z.of_nat fuel) ≤ t)%Z →
  let r := Date.yearDown (S fuel) y t in
  (y - Z.of_nat fuel ≤ r ≤ y)%Z ∧
  (Date.TimeFromYear r ≤ t)%Z ∧
  (∀ y', (r < y' ≤ y)%Z → (t < Date.TimeFromYear y')%Z).
Proof.
  revert y. induction fuel as [|fuel IH]; intros y Hlast.
  - replace (y - Z.of_nat 0)%Z with y in Hlast by lia.
    simpl. destruct (Z.leb_spec (Date.TimeFromYear y) t); [|lia].
    split_and!; [lia.. |]. intros y' Hy'. lia.
  - change (Date.yearDown (S (S fuel)) y t) with
      (if (Date.TimeFromYear y <=? t)%Z then y else Date.yearDown (S fuel) (y - 1)%Z t).
    destruct (Z.leb_spec (Date.TimeFromYear y) t) as [Hle|Hgt].
    + split_and!; [lia.. |]. intros y' Hy'. lia.
    + destruct (IH (y - 1)%Z) as (H1 & H2 & H3).
      { replace (y - 1 - Z.of_nat fuel)%Z with (y - Z.of_nat (S fuel))%Z by lia. done. }
      cbv zeta. split_and!; [lia | lia | done |].
      intros y' Hy'. destruct (decide (y' = y)) as [->|Hne]; [done|].
      apply H3. lia.
Qed.

(** [YearFromTime] is the year ECMAScript defines: the largest one
    that starts at or before [t]. *)
Lemma YearFromTime_spec t :
  (0 ≤ t)%Z →
  (1970 ≤ Date.YearFromTime t)%Z ∧
  (Date.TimeFromYear (Date.YearFromTime t) ≤ t)%Z ∧
  (∀ y, (Date.YearFromTime t < y)%Z → (t < Date.TimeFromYear y)%Z).
Proof.
  intros Ht. unfold Date.YearFromTime.
  set (q := (Date.Day t / 365)%Z).
  assert (Hq : (0 ≤ q)%Z).
  { subst q. unfold Date.Day, Date.msPerDay. Z.div_mod_to_equations. lia. }
  destruct (yearDown_spec t (Z.to_nat q) (1970 + q)%Z) as (H1 & H2 & H3).
  { replace (1970 + q - Z.of_nat (Z.to_nat q))%Z with 1970%Z by lia.
    by vm_compute. }
  split_and!; [lia | done |].
  intros y Hy. destruct (decide (y ≤ 1970 + q)%Z) as [Hle|Hgt]; [by apply H3|].
  unfold Date.TimeFromYear.
  destruct (DayFromYear_lower y) as [Hl|Hl]; [|lia].
  subst q. unfold Date.Day, Date.msPerDay in *. Z.div_mod_to_equations. lia.
Qed.

Lemma YearFromTime_four_digits t :
  (0 ≤ t < 253402300800000)%Z → (1970 ≤ Date.YearFromTime t ≤ 9999)%Z.
Proof.
  intros [H0 H1]. destruct (YearFromTime_spec t H0) as (Hlo & Hle & _).
  split; [done|].
  destruct (decide (Date.YearFromTime t ≤ 9999)%Z) as [|Hgt]; [done|].
  assert (Hm : (Date.DayFromYear 10000 ≤ Date.DayFromYear (Date.YearFromTime t))%Z)
    by (apply DayFromYear_mono; lia).
  unfold Date.TimeFromYear, Date.msPerDay in Hle.
  change (Date.DayFromYear 10000) with 2932897%Z in Hm. lia.
Qed.

(** X1.  For a timer below 253402300800 seconds (the year 10000) the
    text next to the footer is two digits of minutes, a colon and two
    digits of seconds: the time within the current hour.  It starts
    again at 00:00 after sixty minutes. *)
Theorem timerText_minutes_seconds (timer : nat) :
  (Z.of_nat timer < 253402300800)%Z →
  timerText timer =
    Some (Date.digits2 (Z.of_nat timer / 60 mod 60) ++ [58%N]
            ++ Date.digits2 (Z.of_nat timer mod 60)) ∧
  timerText (timer mod 3600) = timerText timer.
Proof.
  assert (Hone : ∀ n : nat, (Z.of_nat n < 253402300800)%Z →
    timerText n = Some (Date.digits2 (Z.of_nat n / 60 mod 60) ++ [58%N]
                          ++ Date.digits2 (Z.of_nat n mod 60))).
  { intros n Hn. unfold timerText, Date.toISOString.
    set (t := (Z.of_nat n * 1000)%Z).
    assert (Ht : (0 ≤ t < 253402300800000)%Z) by (subst t; lia).
    destruct (Z.leb_spec (Z.abs t) 8640000000000000) as [_|Hbig]; [|lia].
    destruct (YearFromTime_four_digits t Ht) as [Hy0 Hy1].
    unfold Date.yearString.
    destruct (Z.leb_spec 0 (Date.YearFromTime t)); [|lia].
    destruct (Z.leb_spec (Date.YearFromTime t) 9999); [|lia].
    simpl. unfold substr. simpl.
    assert (Hmin : Date.MinFromTime t = (Z.of_nat n / 60 mod 60)%Z).
    { unfold Date.MinFromTime, Date.msPerMinute. subst t. f_equal.
      Z.div_mod_to_equations. lia. }
    assert (Hsec : Date.SecFromTime t = (Z.of_nat n mod 60)%Z).
    { unfold Date.SecFromTime, Date.msPerSecond. subst t. f_equal.
      Z.div_mod_to_equations. lia. }
    by rewrite Hmin, Hsec. }
  intros Hn. split; [by apply Hone|].
  assert (Hm : Z.of_nat (timer mod 3600) = (Z.of_nat timer mod 3600)%Z)
    by apply Nat2Z.inj_mod.
  assert (Hlt : (Z.of_nat (timer mod 3600) < 253402300800)%Z).
  { rewrite Hm. pose proof (Z.mod_pos_bound (Z.of_nat timer) 3600). lia. }
  rewrite (Hone timer Hn), (Hone _ Hlt), Hm.
  assert (Hq : (Z.of_nat timer mod 3600 / 60 mod 60 = Z.of_nat timer / 60 mod 60)%Z)
    by (Z.div_mod_to_equations; lia).
  assert (Hr : ((Z.of_nat timer mod 3600) mod 60 = Z.of_nat timer mod 60)%Z)
    by (Z.div_mod_to_equations; lia).
  by rewrite Hq, Hr.
Qed.

Lemma timerText_minutes_seconds_witness :
  timerText 3725 = Some (js "02:05").
Proof.
  apply (timerText_minutes_seconds 3725). vm_compute. reflexivity.
Defined.

(** ** More invariants of the reachable states *)

Lemma step_playback_frame e s :
  (∀ index loads, e ≠ PressPlay index loads) →
  (∀ h, e ≠ DidJustFinish h) →
  playing (step e s) = playing s ∧
  sound (step e s) = sound s ∧
  sounds (device (step e s)) = sounds (device s).
Proof.
  intros Hp Hf. unfold step.
  destruct (render_cells s (handle e s)) as (_ & _ & _ & E1 & E2 & _).
  rewrite E1, E2, render_sounds.
  assert (playing (handle e s) = playing s ∧ sound (handle e s) = sound s ∧
          sounds (device (handle e s)) = sounds (device s)) as (F1 & F2 & F3).
  { destruct e; try (by destruct (Hp index loads)); try (by destruct (Hf h));
      unfold_handle. }
  rewrite F1, F2, F3. by rewrite decide_True.
Qed.

Lemma step_PressPlay_fail index loads s :
  onPressPlay loads index s = None → step (PressPlay index loads) s = s.
Proof. intros H. unfold step. simpl. rewrite H. simpl. by apply render_id. Qed.



(** X3.  A step changes [recordings] in one of two ways only: a save
    appends the new clip at the end, a press on a trash icon removes one
    position.  No step edits or reorders the clips that stay. *)
Theorem recordings_append_or_delete (e : Event) (s : App) :
  recordings (step e s) = recordings s ∨
  (∃ now, e = PressSave now ∧
     recordings (step e s) = recordings s ++ [mkClip (recordingName s) (recording s) now]) ∨
  (∃ index, e = PressTrash index ∧ recordings (step e s) = delete index (recordings s)).
Proof.
  destruct (step_cells e s) as (-> & _).
  destruct e as [granted| |text|now| |index loads|index|id|h];
    try (left; unfold_handle; fail).
  - simpl. unfold handleSaveRecording.
    destruct (nonEmpty (trim (recordingName s))); [|by left].
    right. left. by exists now.
  - right. right. exists index. split; [done|].
    simpl. unfold onPressTrash. simpl. apply filterIndex_delete.
Qed.

Lemma reachable_idle_timer s :
  reachable s → isRecording s = false → timer s = 0%nat.
Proof.
  induction 1 as [|e s Hs IH He]; [done|].
  destruct (step_cells e s) as (_ & _ & _ & -> & -> & _).
  pose proof (reachable_TimerInv s Hs) as HT.
  destruct e as [granted| |text|now| |index loads|index|id|h];
    try (unfold_handle; auto; fail).
  intros Hidle. simpl in *. apply bool_decide_eq_true in He.
  rewrite not_recording_interval in He; [by apply elem_of_empty in He | done |].
  unfold recordingState. by rewrite Hidle.
Qed.

(** X4.  Whenever the app is not recording, [timer] is 0.  So although
    [startRecording] never resets the timer, a recording started with
    the footer button begins at 0 and its text reads 00:00. *)
Theorem idle_timer_zero (s : App) :
  reachable s →
  isRecording s = false →
  timer s = 0%nat ∧
  (truthy (recording s) = false →
     let s' := step (PressRecord true) s in
     isRecording s' = true ∧ timer s' = 0%nat ∧
     timerText (timer s') = Some (js "00:00")).
Proof.
  intros Hs Hidle. pose proof (reachable_idle_timer s Hs Hidle) as H0.
  split; [done|]. intros Hc s'. subst s'.
  destruct (step_cells (PressRecord true) s) as (_ & _ & _ & E1 & E2 & _).
  assert (Ht : timer (step (PressRecord true) s) = 0%nat).
  { rewrite E2. simpl. unfold onPressRecord. rewrite Hc. simpl. done. }
  split_and!.
  - rewrite E1. simpl. unfold onPressRecord. by rewrite Hc.
  - done.
  - rewrite Ht. by vm_compute.
Qed.

Lemma idle_timer_zero_witness :
  timer savedOne = 0%nat ∧
  timer (step (PressRecord true) savedOne) = 0%nat.
Proof.
  destruct (idle_timer_zero savedOne reachable_savedOne) as [H1 H2].
  - vm_compute. reflexivity.
  - split; [exact H1|]. apply H2. vm_compute. reflexivity.
Defined.

Lemma handle_recording_frame e s :
  (∀ granted, e ≠ PressRecord granted) → e ≠ TogglePause →
  captures (device (handle e s)) = captures (device s) ∧
  isPaused (handle e s) = isPaused s ∧
  isRecording (handle e s) = isRecording s ∧
  (recording (handle e s) = recording s ∨
   ∃ now, e = PressSave now ∧ recording (handle e s) = JUndefined).
Proof.
  intros H1 H2. destruct e; try (by destruct (H1 granted)); try done;
    unfold_handle; eauto 10.
Qed.

Lemma step_device_cells e s :
  captures (device (step e s)) = captures (device (handle e s)) ∧
  recording (step e s) = recording (handle e s) ∧
  isPaused (step e s) = isPaused (handle e s) ∧
  isRecording (step e s) = isRecording (handle e s).
Proof.
  unfold step. destruct (render_cells s (handle e s)) as (_&?&_&_&_&_&?&_&?).
  destruct (render_captures s (handle e s)) as [? _]. done.
Qed.

Lemma OneLive_step e s : RecInv s → OneLive s → enabled e s = true → OneLive (step e s).
Proof.
  intros HR HO He h. destruct (step_device_cells e s) as (-> & -> & _).
  assert (Hcases : (∃ granted, e = PressRecord granted) ∨ e = TogglePause ∨
                   ((∀ granted, e ≠ PressRecord granted) ∧ e ≠ TogglePause)).
  { destruct e; eauto. }
  destruct Hcases as [[granted ->] | [-> | [H1 H2]]]; simpl.
  - unfold onPressRecord. destruct (truthy (recording s)) eqn:Ht.
    + destruct (isPaused s).
      * destruct (togglePause s) as [s'|] eqn:E; [|by apply HO].
        apply togglePause_Some in E as (k & Hk & Hl & ->). simpl. rewrite Hk.
        destruct (decide (h = k)) as [->|Hne]; [done|].
        rewrite lookup_insert_ne by done. intros Hh. rewrite <- Hk. by apply HO.
      * destruct (stopRecording s) as [s'|] eqn:E; [|by apply HO].
        apply stopRecording_Some in E as (k & Hk & Hl & ->). simpl. rewrite Hk.
        destruct (decide (h = k)) as [->|Hne]; [done|].
        rewrite lookup_insert_ne by done. intros Hh. rewrite <- Hk. by apply HO.
    + simpl. unfold startRecording. destruct granted; simpl.
      * destruct (decide (h = nextObject (device s))) as [->|Hne]; [done|].
        rewrite lookup_insert_ne by done. intros Hh. apply HO in Hh.
        by rewrite Hh in Ht.
      * intros Hh. apply HO in Hh. by rewrite Hh in Ht.
  - destruct (togglePause s) as [s'|] eqn:E; [|by apply HO].
    apply togglePause_Some in E as (k & Hk & Hl & ->). simpl. rewrite Hk.
    destruct (decide (h = k)) as [->|Hne]; [done|].
    rewrite lookup_insert_ne by done. intros Hh. rewrite <- Hk. by apply HO.
  - destruct (handle_recording_frame e s H1 H2) as (-> & _ & _ & [-> | (now & -> & ->)]).
    + apply HO.
    + intros Hh. simpl in He. destruct (inv_dialog s HR He) as (k & Hk & Hf).
      pose proof (HO h Hh) as Hc. assert (h = k) as -> by congruence.
      by rewrite Hf in Hh.
Qed.

Lemma empty_cell_not_paused s :
  RecInv s → truthy (recording s) = false → isPaused s = false.
Proof.
  intros HR Ht. destruct (isPaused s) eqn:Hp; [|done].
  destruct (active_live s HR (inv_paused s HR Hp)) as (h & Hh & _).
  by rewrite Hh in Ht.
Qed.

Lemma Mirror_togglePause s s' : togglePause s = Some s' → Mirror s'.
Proof.
  intros (k & Hk & Hl & ->)%togglePause_Some h. simpl. rewrite Hk.
  intros [= <-] _. rewrite lookup_insert_eq. by destruct (isPaused s).
Qed.

Lemma Mirror_step e s : RecInv s → Mirror s → enabled e s = true → Mirror (step e s).
Proof.
  intros HR HM He h. destruct (step_device_cells e s) as (-> & -> & -> & _).
  assert (Hcases : (∃ granted, e = PressRecord granted) ∨ e = TogglePause ∨
                   ((∀ granted, e ≠ PressRecord granted) ∧ e ≠ TogglePause)).
  { destruct e; eauto. }
  destruct Hcases as [[granted ->] | [-> | [H1 H2]]]; simpl.
  - unfold onPressRecord. destruct (truthy (recording s)) eqn:Ht.
    + destruct (isPaused s) eqn:Hp.
      * destruct (togglePause s) as [s'|] eqn:E; [|apply HM].
        by apply (Mirror_togglePause s s').
      * destruct (stopRecording s) as [s'|] eqn:E; [|apply HM].
        apply stopRecording_Some in E as (k & Hk & Hl & ->). simpl. rewrite Hk.
        intros [= <-]. by rewrite lookup_insert_eq.
    + simpl. pose proof (empty_cell_not_paused s HR Ht) as Hp.
      unfold startRecording. destruct granted; simpl.
      * rewrite Hp. intros [= <-] _. by rewrite lookup_insert_eq.
      * intros Hh. by rewrite Hh in Ht.
  - destruct (togglePause s) as [s'|] eqn:E; [|by apply HM].
    by apply (Mirror_togglePause s s').
  - destruct (handle_recording_frame e s H1 H2) as (-> & -> & _ & [-> | (now & -> & ->)]).
    + apply HM.
    + done.
Qed.

Lemma reachable_Mirror_OneLive s : reachable s → Mirror s ∧ OneLive s.
Proof.
  induction 1 as [|e s Hs [IH1 IH2] He].
  - split; intros h; cbn; [done | by rewrite lookup_empty].
  - pose proof (reachable_RecInv s Hs) as HR.
    split; [by apply Mirror_step | by apply OneLive_step].
Qed.

(** X5.  In every reachable state the flags say what the microphone
    does: while [Recording] the recorder in the cell is capturing, while
    [Paused] it is suspended, and while [Idle] no recorder at all is
    live. *)
Theorem flags_mirror_device (s : App) :
  reachable s →
  match recordingState s with
  | Recording => ∃ h, recording s = JObj h ∧ captures (device s) !! h = Some Capturing
  | Paused => ∃ h, recording s = JObj h ∧ captures (device s) !! h = Some Suspended
  | Idle => ∀ h, isLive (captures (device s) !! h) = false
  end.
Proof.
  intros Hs. pose proof (reachable_RecInv s Hs) as HR.
  destruct (reachable_Mirror_OneLive s Hs) as [HM HO].
  unfold recordingState. destruct (isRecording s) eqn:Hr.
  - destruct (active_live s HR Hr) as (h & Hc & Hl).
    pose proof (HM h Hc Hl) as Hst.
    destruct (isPaused s); exists h; by split.
  - intros h. destruct (isLive (captures (device s) !! h)) eqn:Hl; [|done].
    pose proof (active_isRecording s h HR (HO h Hl) Hl). congruence.
Qed.

Lemma flags_mirror_device_witness :
  ∃ h, recording recordingNow = JObj h ∧
       captures (device recordingNow) !! h = Some Capturing.
Proof. exact (flags_mirror_device recordingNow reachable_recordingNow). Defined.

(** X6.  At most one recorder is live at any time: in every reachable
    state a live recorder is the one held in the [recording] cell, and
    every other recorder the device knows is finalized. *)
Theorem one_live_recorder (s : App) (h : nat) :
  reachable s →
  is_Some (captures (device s) !! h) →
  recording s ≠ JObj h →
  captures (device s) !! h = Some Finalized.
Proof.
  intros Hs [st Hst] Hne. destruct (reachable_Mirror_OneLive s Hs) as [_ HO].
  specialize (HO h). rewrite Hst in *.
  destruct st; simpl in HO; [by destruct Hne; apply HO.. | done].
Qed.

Lemma one_live_recorder_witness :
  captures (device (run [PressRecord true] savedOne)) !! 0%nat = Some Finalized.
Proof.
  apply (one_live_recorder (run [PressRecord true] savedOne) 0).
  - apply reachable_run, reachable_savedOne.
  - exists Finalized. vm_compute. reflexivity.
  - vm_compute. discriminate.
Defined.

(** ** Finished recordings and loaded sounds *)

Lemma finalized_step e s r :
  RecInv s → enabled e s = true →
  captures (device s) !! r = Some Finalized →
  captures (device (step e s)) !! r = Some Finalized.
Proof.
  intros HR He Hf. destruct (step_device_cells e s) as (-> & _).
  assert (Hcases : (∃ granted, e = PressRecord granted) ∨ e = TogglePause ∨
                   ((∀ granted, e ≠ PressRecord granted) ∧ e ≠ TogglePause)).
  { destruct e; eauto. }
  assert (Hlive : ∀ k, isLive (captures (device s) !! k) = true → r ≠ k).
  { intros k Hk ->. by rewrite Hf in Hk. }
  destruct Hcases as [[granted ->] | [-> | [H1 H2]]]; simpl.
  - unfold onPressRecord. destruct (truthy (recording s)).
    + destruct (isPaused s).
      * destruct (togglePause s) as [s'|] eqn:E; [|done].
        apply togglePause_Some in E as (k & _ & Hl & ->). simpl.
        rewrite lookup_insert_ne; [done|]. intros Heq. by apply (Hlive k Hl).
      * destruct (stopRecording s) as [s'|] eqn:E; [|done].
        apply stopRecording_Some in E as (k & _ & Hl & ->). simpl.
        rewrite lookup_insert_ne; [done|]. intros Heq. by apply (Hlive k Hl).
    + simpl. unfold startRecording. destruct granted; simpl; [|done].
      rewrite lookup_insert_ne; [done|].
      pose proof (inv_fresh s HR r (ex_intro _ _ Hf)). lia.
  - destruct (togglePause s) as [s'|] eqn:E; [|done].
    apply togglePause_Some in E as (k & _ & Hl & ->). simpl.
    rewrite lookup_insert_ne; [done|]. intros Heq. by apply (Hlive k Hl).
  - by destruct (handle_recording_frame e s H1 H2) as (-> & _).
Qed.

(** X7.  A recording that has been stopped stays finished: no sequence
    of events makes the device record through it again. *)
Theorem finalized_forever (s : App) (r : nat) (es : list Event) :
  reachable s →
  captures (device s) !! r = Some Finalized →
  captures (device (run es s)) !! r = Some Finalized.
Proof.
  revert s. induction es as [|e es IH]; intros s Hs Hf; [done|].
  simpl. apply IH; [by apply reachable_exec|].
  unfold exec. destruct (enabled e s) eqn:He; [|done].
  apply finalized_step; [by apply reachable_RecInv | done..].
Qed.

Lemma finalized_forever_witness :
  captures (device (run [PressRecord true; TogglePause] savedOne)) !! 0%nat
    = Some Finalized.
Proof.
  apply (finalized_forever savedOne 0 [PressRecord true; TogglePause]).
  - exact reachable_savedOne.
  - vm_compute. reflexivity.
Defined.

Lemma reachable_PlaysFinished s : reachable s → PlaysFinished s.
Proof.
  induction 1 as [|e s Hs IH He]; [intros h r Hh; cbn in Hh; by rewrite lookup_empty in Hh|].
  pose proof (reachable_RecInv s Hs) as HR.
  pose proof (reachable_SoundInv s Hs) as HS.
  intros h r Hh. 
  assert (Hcases : (∃ index loads, e = PressPlay index loads) ∨
                   (∃ k, e = DidJustFinish k) ∨
                   ((∀ index loads, e ≠ PressPlay index loads) ∧
                    (∀ k, e ≠ DidJustFinish k))).
  { destruct e; eauto 10. }
  destruct Hcases as [(index & loads & ->) | [[k ->] | [H1 H2]]].
  - destruct (onPressPlay loads index s) as [s'|] eqn:Hplay.
    + apply onPressPlay_Some in Hplay as (c & r' & Hc & Hr & Hf & -> & _).
      destruct (step_PressPlay s index c r' HS Hc Hr Hf) as (_ & _ & E3 & _).
      rewrite E3 in Hh. apply lookup_singleton_Some in Hh as [_ <-].
      by apply finalized_step.
    + rewrite step_PressPlay_fail in * by done. by eapply IH.
  - simpl in He. apply bool_decide_eq_true in He.
    destruct (step_DidJustFinish k s HS He) as (_ & _ & E3).
    rewrite E3 in Hh. by rewrite lookup_empty in Hh.
  - destruct (step_playback_frame e s H1 H2) as (_ & _ & E3).
    rewrite E3 in Hh. apply finalized_step; [done | done | by eapply IH].
Qed.

(** X8.  In every reachable state at most one sound is loaded; it is
    the one tracked in the [sound] cell and it plays a finished
    recording. *)
Theorem at_most_one_sound (s : App) :
  reachable s →
  (size (sounds (device s)) ≤ 1)%nat ∧
  (sounds (device s) = ∅ ∨
   ∃ h r, sound s = JObj h ∧ sounds (device s) = {[h := r]} ∧
          captures (device s) !! r = Some Finalized).
Proof.
  intros Hs. pose proof (reachable_SoundInv s Hs) as [H1 _].
  pose proof (reachable_PlaysFinished s Hs) as HP.
  assert (Hshape : sounds (device s) = ∅ ∨
    ∃ h r, sound s = JObj h ∧ sounds (device s) = {[h := r]} ∧
           captures (device s) !! r = Some Finalized).
  { destruct (decide (sounds (device s) = ∅)) as [|Hne]; [by left | right].
    apply map_choose in Hne as (h & r & Hh).
    exists h, r. split_and!; [by eauto | | by eapply HP].
    apply map_eq. intros k. destruct (decide (k = h)) as [->|Hk].
    - by rewrite lookup_singleton_eq.
    - rewrite lookup_singleton_ne by done.
      destruct (sounds (device s) !! k) eqn:E; [|done].
      pose proof (H1 k (ex_intro _ _ E)). pose proof (H1 h (ex_intro _ _ Hh)).
      congruence. }
  split; [|done].
  destruct Hshape as [-> | (h & r & _ & -> & _)].
  - rewrite map_size_empty. lia.
  - rewrite map_size_singleton. lia.
Qed.

Lemma at_most_one_sound_witness :
  (size (sounds (device playingSecondAfterFirst)) ≤ 1)%nat.
Proof.
  apply (at_most_one_sound playingSecondAfterFirst reachable_playingSecondAfterFirst).
Defined.

(** ** The footer button *)

Lemma reachableUI_reachable s : reachableUI s → reachable s.
Proof. induction 1; [apply reachable_mounted | by apply reachable_step]. Qed.

(** X9.  Through the interface alone a recording is never paused: the
    footer button calls [togglePause] only when [isPaused] already
    holds, and nothing else sets it.  So the state is never [Paused]
    and the footer never shows the play icon. *)
Theorem never_paused_through_interface (s : App) :
  reachableUI s →
  isPaused s = false ∧ recordingState s ≠ Paused ∧ footerIcon s ≠ "play".
Proof.
  intros Hs.
  assert (Hp : isPaused s = false).
  { induction Hs as [|e s Hs IH Hne He]; [done|].
    destruct (step_cells e s) as (_ & _ & _ & _ & _ & ->).
    destruct e; try done; unfold_handle; congruence. }
  unfold recordingState, footerIcon. rewrite Hp.
  split_and!; [done | by destruct (isRecording s) | by destruct (isRecording s)].
Qed.

Lemma never_paused_through_interface_witness :
  let s := step (PressRecord true) (step (PressRecord true) mounted) in
  isPaused s = false ∧ recordingState s ≠ Paused ∧ footerIcon s ≠ "play".
Proof.
  apply (never_paused_through_interface
           (step (PressRecord true) (step (PressRecord true) mounted))).
  apply reachableUI_step; [|discriminate|reflexivity].
  apply reachableUI_step; [|discriminate|reflexivity].
  apply reachableUI_mounted.
Defined.

Lemma idle_full_cell_press granted s :
  RecInv s → isRecording s = false → truthy (recording s) = true →
  step (PressRecord granted) s = s.
Proof.
  intros HR Hidle Ht. unfold step.
  assert (handle (PressRecord granted) s = s) as ->; [|by apply render_id].
  assert (Hp : isPaused s = false).
  { destruct (isPaused s) eqn:E; [|done]. rewrite (inv_paused s HR E) in Hidle. done. }
  simpl. unfold onPressRecord, stopRecording, stopAndUnloadAsync. rewrite Ht, Hp.
  destruct (recording s) as [| |h] eqn:Hc; try done.
  destruct (isLive (captures (device s) !! h)) eqn:Hl; [|done].
  rewrite (active_isRecording s h HR Hc Hl) in Hidle. done.
Qed.

(** X10.  What the footer button does in each reachable state.  While
    [Recording] it stops: the state becomes [Idle], the timer 0 and the
    dialog opens.  While [Paused] it resumes and cannot stop.  While
    [Idle] it starts a recording if the [recording] cell is empty and
    the device grants it, changes no cell if the device refuses (only
    the audio mode of the device has been switched), and does nothing at
    all if the cell still holds a handle. *)
Theorem footer_button_by_state (s : App) (granted : bool) :
  reachable s →
  let s' := step (PressRecord granted) s in
  match recordingState s with
  | Recording =>
      recordingState s' = Idle ∧ timer s' = 0%nat ∧ isDialogVisible s' = true ∧
      recording s' = recording s
  | Paused =>
      recordingState s' = Recording ∧ timer s' = timer s ∧
      isDialogVisible s' = isDialogVisible s ∧ recording s' = recording s
  | Idle =>
      if truthy (recording s) then s' = s
      else if granted then
        recordingState s' = Recording ∧ timer s' = 0%nat ∧
        recording s' = JObj (nextObject (device s))
      else
        recordingState s' = Idle ∧
        s' = s |> setDevice (setAudioModeAsync true (device s))
  end.
Proof.
  intros Hs s'. subst s'.
  pose proof (reachable_RecInv s Hs) as HR. pose proof (reachable_TimerInv s Hs) as HT.
  destruct (step_cells (PressRecord granted) s) as (E1 & E2 & E3 & E4 & E5 & E6).
  unfold recordingState at 1. destruct (isRecording s) eqn:Hr.
  - destruct (active_live s HR Hr) as (h & Hc & Hl).
    assert (HC : Capture h s) by done.
    destruct (isPaused s) eqn:Hp.
    + assert (Hcall : step (PressRecord granted) s = call togglePause s).
      { unfold step, call. simpl. unfold onPressRecord. by rewrite Hc, Hp. }
      destruct (call_togglePause h s HC) as ((_ & F1 & _ & F2) & F3 & F4).
      rewrite <- Hcall in F1, F2, F3, F4.
      unfold recordingState. rewrite F2, F3, Hp. split_and!; try done.
      * rewrite E3. simpl. unfold onPressRecord, togglePause, startAsync.
        rewrite Hc, Hp. simpl. by rewrite Hl.
      * by rewrite F1.
    + assert (Hcall : step (PressRecord granted) s = call stopRecording s).
      { unfold step, call. simpl. unfold onPressRecord. by rewrite Hc, Hp. }
      destruct (call_stopRecording h s HC) as (F1 & F2 & F3 & F4 & _).
      rewrite <- Hcall in F1, F2, F3, F4.
      unfold recordingState. rewrite F1. split_and!; try done. by rewrite F4.
  - destruct (truthy (recording s)) eqn:Ht; [by apply idle_full_cell_press|].
    pose proof (empty_cell_not_paused s HR Ht) as Hp.
    pose proof (reachable_idle_timer s Hs Hr) as H0.
    destruct granted.
    + unfold recordingState. rewrite E2, E4, E5, E6. simpl.
      unfold onPressRecord. rewrite Ht. simpl. by rewrite Hp.
    + assert (Hh : handle (PressRecord false) s
                   = s |> setDevice (setAudioModeAsync true (device s))).
      { simpl. unfold onPressRecord. by rewrite Ht. }
      assert (Hst : step (PressRecord false) s
                    = s |> setDevice (setAudioModeAsync true (device s))).
      { unfold step. rewrite Hh. by apply render_id. }
      rewrite Hst. split; [|done]. unfold recordingState. simpl. by rewrite Hr.
Qed.

Lemma footer_button_by_state_witness :
  let s' := step (PressRecord true) recordingNow in
  recordingState s' = Idle ∧ timer s' = 0%nat ∧ isDialogVisible s' = true ∧
  recording s' = recording recordingNow.
Proof.
  exact (footer_button_by_state recordingNow true reachable_recordingNow).
Defined.

(** X11.  The save dialog is only ever open on a finished recording:
    while it is visible the state is [Idle], the timer is 0, the
    [recording] cell holds a finalized recorder, and the footer button
    does nothing. *)
Theorem dialog_on_finished_recording (s : App) (granted : bool) :
  reachable s →
  isDialogVisible s = true →
  recordingState s = Idle ∧
  timer s = 0%nat ∧
  (∃ h, recording s = JObj h ∧ captures (device s) !! h = Some Finalized) ∧
  step (PressRecord granted) s = s.
Proof.
  intros Hs Hd. pose proof (reachable_RecInv s Hs) as HR.
  destruct (inv_dialog s HR Hd) as (h & Hc & Hf).
  assert (Hidle : isRecording s = false).
  { destruct (isRecording s) eqn:E; [|done].
    destruct (active_live s HR E) as (k & Hk & Hl).
    assert (k = h) as -> by congruence. by rewrite Hf in Hl. }
  split_and!.
  - unfold recordingState. by rewrite Hidle.
  - by apply reachable_idle_timer.
  - by exists h.
  - apply idle_full_cell_press; [done | done | by rewrite Hc].
Qed.

Lemma dialog_on_finished_recording_witness :
  recordingState pendingSave = Idle ∧
  timer pendingSave = 0%nat ∧
  (∃ h, recording pendingSave = JObj h ∧
        captures (device pendingSave) !! h = Some Finalized) ∧
  step (PressRecord true) pendingSave = pendingSave.
Proof.
  apply (dialog_on_finished_recording pendingSave true reachable_pendingSave).
  vm_compute. reflexivity.
Defined.

(** ** Rows *)

(** X12.  A press on any row of a reachable state either plays or does
    nothing.  If the device loads the sound, the row is marked and the
    new sound, playing the row's recording, is the only one loaded; it
    is never rejected for a missing or unfinished recording.  If the
    device fails to load, no cell and no device state changes. *)
Theorem row_press_plays_or_nothing (s : App) (index : nat) :
  reachable s →
  (index < length (recordings s))%nat →
  (∃ c r h, recordings s !! index = Some c ∧ clip_recording c = JObj r ∧
     let s' := step (PressPlay index true) s in
     playing s' = Z.of_nat index ∧ rowIcon s' index = "pause" ∧
     sound s' = JObj h ∧ sounds (device s') = {[h := r]} ∧
     recordings s' = recordings s) ∧
  step (PressPlay index false) s = s.
Proof.
  intros Hs Hi.
  pose proof (reachable_RecInv s Hs) as HR. pose proof (reachable_SoundInv s Hs) as HS.
  destruct (lookup_lt_is_Some_2 _ _ Hi) as [c Hc].
  destruct (inv_clips s HR c) as (r & Hr & Hf); [by eapply list_elem_of_lookup_2|].
  split.
  - exists c, r, (nextObject (device s)). split_and!; [done..|].
    destruct (step_PressPlay s index c r HS Hc Hr Hf) as (E1 & E2 & E3 & _ & E5).
    split_and!; try done. unfold rowIcon. rewrite E2. by rewrite decide_False by auto.
  - apply step_PressPlay_fail. unfold onPressPlay, createNewLoadedSoundAsync.
    rewrite Hc. simpl. by rewrite Hr, Hf.
Qed.

Lemma row_press_plays_or_nothing_witness :
  step (PressPlay 1 false) savedTwo = savedTwo.
Proof.
  apply (row_press_plays_or_nothing savedTwo 1 reachable_savedTwo).
  vm_compute. lia.
Defined.

(** X13.  Every saved clip has a finished recording of its own: in every
    reachable state the recorders of two different rows differ, none of
    them is the recorder in the [recording] cell, and all of them are
    finalized. *)
Theorem clips_own_finished_recordings (s : App) (i : nat) (c : Clip) :
  reachable s →
  recordings s !! i = Some c →
  (∃ r, clip_recording c = JObj r ∧ captures (device s) !! r = Some Finalized) ∧
  clip_recording c ≠ recording s ∧
  (∀ j c', recordings s !! j = Some c' → clip_recording c' = clip_recording c → j = i).
Proof.
  intros Hs Hc. pose proof (reachable_RecInv s Hs) as HR.
  assert (Hin : c ∈ recordings s) by by eapply list_elem_of_lookup_2.
  split_and!.
  - by apply (inv_clips s HR).
  - by apply (inv_pending s HR).
  - intros j c' Hc' Heq.
    apply (NoDup_lookup _ _ _ (clip_recording c) (inv_nodup s HR));
      rewrite list_lookup_fmap; [rewrite Hc'; simpl; congruence | by rewrite Hc].
Qed.

Lemma clips_own_finished_recordings_witness :
  (∃ r, clip_recording take2 = JObj r ∧
        captures (device savedTwo) !! r = Some Finalized) ∧
  clip_recording take2 ≠ recording savedTwo ∧
  (∀ j c', recordings savedTwo !! j = Some c' →
           clip_recording c' = clip_recording take2 → j = 1%nat).
Proof.
  apply (clips_own_finished_recordings savedTwo 1 take2 reachable_savedTwo).
  vm_compute. reflexivity.
Defined.

(** ** A whole recording *)

Lemma seconds_only_timer n s :
  TimerInv s → ∃ t, seconds n s = setTimer t s.
Proof.
  intros HT. induction n as [|n [t IH]].
  - exists (timer s). by destruct s.
  - change (seconds (S n) s) with (second (seconds n s)).
    destruct (seconds_spec n s HT) as (HT' & _).
    destruct (decide (recordingState (seconds n s) = Recording)) as [Hr|Hr].
    + rewrite second_recording by done. rewrite IH. by exists (t + 1)%nat.
    + rewrite second_not_recording by done. by exists t.
Qed.

(** X14.  One whole recording through the interface.  From a reachable
    state with an empty [recording] cell: press the footer button
    (granted), let any number of seconds pass, press it again, type a
    name that is not blank, and save.  The list has grown by exactly one
    clip at the end, carrying that name, the new recorder and the time
    stamp; the app is [Idle] with the timer at 0, the dialog closed, the
    name field empty, and the cell empty again, ready for the next
    recording. *)
Theorem record_and_save (s : App) (n : nat) (granted : bool) (text now : jsstring) :
  reachable s →
  truthy (recording s) = false →
  trim text ≠ [] →
  let s1 := seconds n (step (PressRecord true) s) in
  let s2 := step (ChangeText text) (step (PressRecord granted) s1) in
  let s3 := step (PressSave now) s2 in
  timer s1 = n ∧
  recordings s3 = recordings s ++ [mkClip text (JObj (nextObject (device s))) now] ∧
  recording s3 = JUndefined ∧
  recordingState s3 = Idle ∧
  timer s3 = 0%nat ∧
  isDialogVisible s3 = false ∧
  recordingName s3 = [].
Proof.
  intros Hs Hc Htext s1 s2 s3.
  pose proof (reachable_RecInv s Hs) as HR. pose proof (reachable_TimerInv s Hs) as HT.
  assert (Hidle : isRecording s = false).
  { destruct (isRecording s) eqn:E; [|done].
    destruct (active_live s HR E) as (h & Hh & _). by rewrite Hh in Hc. }
  pose proof (empty_cell_not_paused s HR Hc) as Hp.
  pose proof (reachable_idle_timer s Hs Hidle) as H0.
  set (h := nextObject (device s)).
  (* start *)
  destruct (step_as_call s) as (Hstart & _). specialize (Hstart Hc).
  destruct (call_startRecording s HT) as (A0 & A1 & A2). fold h in A0.
  rewrite <- Hstart in A0, A1, A2.
  assert (A3 : recordings (step (PressRecord true) s) = recordings s).
  { destruct (step_cells (PressRecord true) s) as (-> & _).
    simpl. unfold onPressRecord. by rewrite Hc. }
  (* seconds *)
  destruct (Capture_seconds n h _ A0) as (B0 & B1 & B2). fold s1 in B0, B1, B2.
  rewrite decide_True in B2
    by (unfold recordingState; destruct A0 as (_ & _ & _ & ->); by rewrite A1, Hp).
  rewrite A2, H0 in B2. rewrite A1, Hp in B1.
  destruct (seconds_only_timer n (step (PressRecord true) s)) as [t Ht];
    [by destruct A0|]. fold s1 in Ht.
  assert (B3 : recordings s1 = recordings s) by by rewrite Ht.
  (* stop *)
  destruct B0 as (BT & Bc & Bl & Br).
  destruct (step_as_call s1) as (_ & _ & Hstop).
  specialize (Hstop ltac:(by rewrite Bc) B1 granted).
  destruct (call_stopRecording h s1) as (C1 & C2 & C3 & C4 & C5); [done|].
  rewrite <- Hstop in C1, C2, C3, C4, C5.
  assert (C6 : recordings (step (PressRecord granted) s1) = recordings s).
  { destruct (step_cells (PressRecord granted) s1) as (-> & _).
    simpl. unfold onPressRecord, stopRecording, stopAndUnloadAsync.
    rewrite Bc, B1. simpl. by rewrite Bl. }
  (* name *)
  set (u := step (PressRecord granted) s1) in *.
  assert (D : s2 = onChangeText text u).
  { subst s2. unfold step. simpl. by apply render_id. }
  (* save *)
  destruct (step_cells (PressSave now) s2) as (E1 & E2 & E3 & E4 & E5 & _).
  destruct (render_cells s2 (handle (PressSave now) s2)) as (_ & _ & E6 & _).
  fold (step (PressSave now) s2) in E6. fold s3 in E1, E2, E3, E4, E5, E6.
  assert (Hsave : handle (PressSave now) s2 =
    s2 |> setRecordings (recordings s2 ++ [mkClip (recordingName s2) (recording s2) now])
       |> setRecording JUndefined |> setDialogVisible false |> setRecordingName []).
  { simpl. unfold handleSaveRecording. rewrite D. simpl.
    destruct (trim text); done. }
  rewrite Hsave in E1, E2, E3, E4, E5, E6. simpl in E1, E2, E3, E4, E5, E6.
  rewrite D in E1, E4, E5. simpl in E1, E4, E5.
  unfold recordingState. rewrite E1, E2, E3, E4, E5, E6, C1, C2, C4, C6.
  split_and!; done.
Qed.

Lemma record_and_save_witness :
  let s1 := seconds 3 (step (PressRecord true) savedOne) in
  let s2 := step (ChangeText (js "Take 2")) (step (PressRecord true) s1) in
  let s3 := step (PressSave stamp) s2 in
  timer s1 = 3%nat ∧
  recordings s3 = recordings savedOne ++ [take2] ∧
  recording s3 = JUndefined ∧
  recordingState s3 = Idle ∧
  timer s3 = 0%nat ∧
  isDialogVisible s3 = false ∧
  recordingName s3 = [].
Proof.
  apply (record_and_save savedOne 3 true (js "Take 2") stamp reachable_savedOne).
  - vm_compute. reflexivity.
  - vm_compute. discriminate.
Defined.

(** ** The audio mode *)

Lemma step_audio_mode e s :
  allowsRecordingIOS (device (step e s)) = allowsRecordingIOS (device (handle e s)).
Proof. unfold step. unfold_render. Qed.

(** X15.  The audio mode follows the recording: in every reachable
    state recording is allowed by the audio mode while a recording is in
    progress, and it is switched off again while the save dialog is
    open. *)
Theorem audio_mode_follows_recording (s : App) :
  reachable s →
  (isRecording s = true → allowsRecordingIOS (device s) = true) ∧
  (isDialogVisible s = true → allowsRecordingIOS (device s) = false).
Proof.
  induction 1 as [|e s Hs [IH1 IH2] He]; [done|].
  pose proof (reachable_RecInv s Hs) as HR.
  destruct (step_cells e s) as (_ & _ & -> & -> & _). rewrite step_audio_mode.
  assert (Hd : isDialogVisible s = true → truthy (recording s) = true).
  { intros Hv. destruct (inv_dialog s HR Hv) as (h & -> & _). done. }
  destruct e as [granted| |text|now| |index loads|index|id|h];
    simpl in He; unfold_handle; split; intros; try congruence; auto;
    try (exfalso; by pose proof (Hd ltac:(assumption))).
Qed.

Lemma audio_mode_follows_recording_witness :
  allowsRecordingIOS (device recordingNow) = true ∧
  allowsRecordingIOS (device pendingSave) = false.
Proof.
  split.
  - apply (audio_mode_follows_recording recordingNow reachable_recordingNow).
    vm_compute. reflexivity.
  - apply (audio_mode_follows_recording pendingSave reachable_pendingSave).
    vm_compute. reflexivity.
Defined.
